(** * 3SF consensus core: a shallow embedding of the Python specification

    The development follows the layout of the repository:
    - [high_level/common/data_structures.py], [common.py], [ffg.py];
    - [high_level/protocols/rlmd/helpers.py] (module [RLMD]);
    - [ga_based/helpers.py] (module [GaBased]);
    - [pyspec/beacon_chain.py] (module [PySpec]).

    Python [int] is [Z]; a [PSet] is a [gset]; a [PMap] is a [gmap];
    a function that may raise, or whose recursion is not structural,
    lives in the [Result] monad and takes a fuel argument. *)

From Stdlib Require Import ZArith Lia.
From stdpp Require Import base gmap sets fin_sets fin_maps list strings.

Local Open Scope Z_scope.
Set Warnings "-clear-no-such-hyp".

(** ** Exceptions and the result monad *)

Inductive Exn : Set :=
| KeyError        (* [m[k]] on a key that is absent from a [PMap] *)
| AttributeError  (* [PRecord.set] on a field the record does not declare *)
| ValueError      (* [max] of an empty collection *)
| ZeroDivisionError (* [//] or [%] by zero *)
| OutOfFuel.      (* the recursion did not return within the fuel given *)

Inductive Result (A : Type) : Type :=
| Ok (a : A)
| Raise (e : Exn).
Arguments Ok {A} a.
Arguments Raise {A} e.

#[global] Instance Exn_eq_dec : EqDecision Exn.
Proof. solve_decision. Defined.

#[global] Instance Result_ret : MRet Result := λ A a, Ok a.
#[global] Instance Result_bind : MBind Result := λ A B f m,
  match m with
  | Ok a => f a
  | Raise e => Raise e
  end.

(** Python's short-circuit [and]: the right operand is consulted only
    when the left one evaluated to [True]. *)
Definition andM (a b : Result bool) : Result bool :=
  x ← a; if x : bool then b else Ok false.
Infix "<&&>" := andM (at level 41, right associativity).

(** ** [data_structures.py] *)

Definition Hash := string.
Definition NodeIdentity := string.

(** [Signature] and [BlockBody] are frozen dataclasses without fields:
    any two of their instances compare equal. *)
Definition Signature := unit.
Definition BlockBody := unit.

Record Checkpoint : Set := mkCheckpoint {
  cp_block_hash : Hash;
  chkp_slot : Z;
  block_slot : Z
}.

Record VoteMessage : Set := mkVoteMessage {
  vm_slot : Z;
  head_hash : Hash;
  ffg_source : Checkpoint;
  ffg_target : Checkpoint
}.

Record SignedVoteMessage : Set := mkSignedVoteMessage {
  message : VoteMessage;
  signature : Signature;
  sender : NodeIdentity
}.

#[global] Instance Checkpoint_eq_dec : EqDecision Checkpoint.
Proof. solve_decision. Defined.
#[global] Instance VoteMessage_eq_dec : EqDecision VoteMessage.
Proof. solve_decision. Defined.
#[global] Instance SignedVoteMessage_eq_dec : EqDecision SignedVoteMessage.
Proof. solve_decision. Defined.

#[global] Instance Checkpoint_countable : Countable Checkpoint.
Proof.
  refine (inj_countable' (λ c, (cp_block_hash c, chkp_slot c, block_slot c))
                         (λ t, mkCheckpoint t.1.1 t.1.2 t.2) _).
  by intros [].
Defined.
#[global] Instance VoteMessage_countable : Countable VoteMessage.
Proof.
  refine (inj_countable' (λ m, (vm_slot m, head_hash m, ffg_source m, ffg_target m))
                         (λ t, mkVoteMessage t.1.1.1 t.1.1.2 t.1.2 t.2) _).
  by intros [].
Defined.
#[global] Instance SignedVoteMessage_countable : Countable SignedVoteMessage.
Proof.
  refine (inj_countable' (λ v, (message v, signature v, sender v))
                         (λ t, mkSignedVoteMessage t.1.1 t.1.2 t.2) _).
  by intros [].
Defined.

Record Block : Type := mkBlock {
  parent_hash : Hash;
  slot : Z;
  votes : gset SignedVoteMessage;
  body : BlockBody
}.

#[global] Instance Block_eq_dec : EqDecision Block.
Proof. solve_decision. Defined.
#[global] Instance Block_countable : Countable Block.
Proof.
  refine (inj_countable' (λ b, (parent_hash b, slot b, votes b, body b))
                         (λ t, mkBlock t.1.1.1 t.1.1.2 t.1.2 t.2) _).
  by intros [].
Defined.

Inductive NodePhase : Set := PROPOSE | VOTE | CONFIRM | MERGE.

#[global] Instance NodePhase_eq_dec : EqDecision NodePhase.
Proof. solve_decision. Defined.

Abbreviation ValidatorBalances := (gmap NodeIdentity Z).
Abbreviation BlockView := (gmap Hash Block).

Record Configuration : Type := mkConfiguration {
  delta : Z;
  genesis : Block;
  eta : Z;
  k : Z
}.

Record CommonNodeState : Type := mkCommonNodeState {
  configuration : Configuration;
  identity : NodeIdentity;
  current_slot : Z;
  view_blocks : BlockView;
  view_votes : gset SignedVoteMessage;
  chava : Block
}.


(** ** [stubs.py]: the environment the core consumes

    The repository leaves block hashing, signature verification and the
    validator-set oracle to the environment; they are taken as parameters. *)

Class Stubs : Type := mkStubs {
  block_hash : Block → Hash;
  verify_vote_signature : SignedVoteMessage → bool;
  get_validator_set_for_slot : Block → Z → CommonNodeState → ValidatorBalances
}.

(** ** [pythonic_code_generic.py]: collection helpers *)

Section Generic.
Context {A : Type} {EqA : EqDecision A} {CntA : Countable A}.

(** Modelled from the spec: [pset_filter] of [pythonic_code_generic.py]
    (not part of the sources at hand). Every filter of the specification
    is "set-to-set, pure", and each call site keeps the elements on which
    the predicate holds ([get_children] keeps the blocks whose parent is
    the given one, [filter_out_invalid_votes] keeps the valid votes). *)
Definition pset_filter (p : A → bool) (s : gset A) : gset A :=
  filter (λ x, p x = true) s.

(** The loop behind [pset_filter] when the predicate may raise: the first
    exception met while iterating over the set is propagated. *)
Fixpoint filter_r (p : A → Result bool) (l : list A) : Result (list A) :=
  match l with
  | [] => Ok []
  | x :: l' =>
      b ← p x;
      r ← filter_r p l';
      Ok (if b : bool then x :: r else r)
  end.

Definition pset_filter_r (p : A → Result bool) (s : gset A) : Result (gset A) :=
  l ← filter_r p (elements s); Ok (list_to_set l).

(** Modelled from the spec: [pset_map] followed by [pset_sum] adds up one
    summand per element of the set ("total balance of senders"): the image
    is kept as a list, so that equal balances are counted once each. *)
Definition pset_map {B : Type} (f : A → B) (s : gset A) : list B :=
  f <$> elements s.

Definition pset_map_to_pset {B : Type} `{Countable B} (f : A → B) (s : gset A) : gset B :=
  set_map f s.

(** Modelled from the spec: [pset_max(s, key)] is Python's [max(s, key=key)]:
    the first element, in iteration order, whose key no other key exceeds.
    [None] stands for the [ValueError] on an empty set. *)
Definition list_max_by {K : Type} (lt : K → K → bool) (key : A → K) (l : list A) : option A :=
  match l with
  | [] => None
  | x :: l' => Some (foldl (λ best y, if lt (key best) (key y) then y else best) x l')
  end.

Definition pset_max {K : Type} (lt : K → K → bool) (key : A → K) (s : gset A) : option A :=
  list_max_by lt key (elements s).
End Generic.

Definition pset_sum (l : list Z) : Z := foldr Z.add 0 l.

(** Python compares tuples lexicographically. *)
Definition tuple_lt (a b : Z * Z) : bool :=
  (a.1 <? b.1) || ((a.1 =? b.1) && (a.2 <? b.2)).

Definition tuple_le (a b : Z * Z) : Prop :=
  a.1 < b.1 ∨ (a.1 = b.1 ∧ a.2 ≤ b.2).

(** Modelled from the spec: [pmap_merge(a, b)] adds the bindings of [b] to
    [a] ("blocks ← blocks ∪ buffer_blocks"); on a key bound in both, the
    binding of [b] is kept, as [PMap.update] does. *)
Definition pmap_merge {V : Type} (a b : gmap Hash V) : gmap Hash V := b ∪ a.

(** ** [common.py] *)

Section Common.
Context {stubs : Stubs}.

Definition genesis_checkpoint (node_state : CommonNodeState) : Checkpoint :=
  {| cp_block_hash := block_hash (genesis (configuration node_state));
     chkp_slot := 0;
     block_slot := 0 |}.

Definition has_block_hash (h : Hash) (node_state : CommonNodeState) : bool :=
  bool_decide (is_Some (view_blocks node_state !! h)).

(** [Requires] is a no-op at run time: on an absent hash the lookup
    [pmap_get] itself raises. *)
Definition get_block_from_hash (h : Hash) (node_state : CommonNodeState) : Result Block :=
  match view_blocks node_state !! h with
  | Some b => Ok b
  | None => Raise KeyError
  end.

Definition has_parent (block : Block) (node_state : CommonNodeState) : bool :=
  has_block_hash (parent_hash block) node_state.

Definition get_parent (block : Block) (node_state : CommonNodeState) : Result Block :=
  get_block_from_hash (parent_hash block) node_state.

Definition get_all_blocks (node_state : CommonNodeState) : gset Block :=
  map_img (view_blocks node_state).

Fixpoint is_complete_chain (fuel : nat) (block : Block) (node_state : CommonNodeState)
  : Result bool :=
  match fuel with
  | O => Raise OutOfFuel
  | S fuel' =>
      if decide (block = genesis (configuration node_state)) then Ok true
      else if negb (has_parent block node_state) then Ok false
      else p ← get_parent block node_state; is_complete_chain fuel' p node_state
  end.

Definition is_validator (node : NodeIdentity) (validatorBalances : ValidatorBalances) : bool :=
  bool_decide (is_Some (validatorBalances !! node)).

(** [pmap_get] cannot raise here: it is only applied to keys of the map. *)
Definition validator_set_weight (validators : gset NodeIdentity)
    (validatorBalances : ValidatorBalances) : Z :=
  pset_sum (pset_map (λ v, validatorBalances !!! v) (dom validatorBalances ∩ validators)).

(** [high_level/common/helpers.py] is not part of the sources at hand; the
    function is taken from [ga_based/helpers.py], which defines it over the
    same block view. *)
Fixpoint is_ancestor_descendant_relationship (fuel : nat) (ancestor descendant : Block)
    (node_state : CommonNodeState) : Result bool :=
  match fuel with
  | O => Raise OutOfFuel
  | S fuel' =>
      if decide (ancestor = descendant) then Ok true
      else if decide (descendant = genesis (configuration node_state)) then Ok false
      else
        Ok (has_parent descendant node_state) <&&>
        (p ← get_parent descendant node_state;
         is_ancestor_descendant_relationship fuel' ancestor p node_state)
  end.

(** The call [is_ancestor_descendant_relationship(get_block_from_hash(a),
    get_block_from_hash(d), node_state)]: both arguments are evaluated
    before the call. *)
Definition is_ancestor_descendant_of_hashes (fuel : nat) (a d : Hash)
    (node_state : CommonNodeState) : Result bool :=
  ba ← get_block_from_hash a node_state;
  bd ← get_block_from_hash d node_state;
  is_ancestor_descendant_relationship fuel ba bd node_state.

(** [Requires(is_complete_chain(block, node_state))]: the argument is
    evaluated before the call, which itself does nothing. *)
Fixpoint get_blockchain (fuel : nat) (block : Block) (node_state : CommonNodeState)
  : Result (list Block) :=
  match fuel with
  | O => Raise OutOfFuel
  | S fuel' =>
      _ ← is_complete_chain fuel block node_state;
      if decide (block = genesis (configuration node_state)) then Ok [block]
      else
        p ← get_parent block node_state;
        rest ← get_blockchain fuel' p node_state;
        Ok (block :: rest)
  end.
End Common.

(** [get_votes_included_in_blocks] reads the same in [rlmd/helpers.py] and in
    [ga_based/helpers.py]: [pset_merge_flatten] is the union of the vote sets
    of the blocks. *)
Definition get_votes_included_in_blocks (blocks : gset Block) : gset SignedVoteMessage :=
  ⋃ (pset_map votes blocks).

(** ** [ffg.py] *)

Section FFG.
Context {stubs : Stubs}.

Definition get_set_FFG_targets (votes : gset SignedVoteMessage) : gset Checkpoint :=
  pset_map_to_pset (λ vote, ffg_target (message vote)) votes.

Definition valid_FFG_vote (fuel : nat) (vote : SignedVoteMessage)
    (node_state : CommonNodeState) : Result bool :=
  let m := message vote in
  Ok (verify_vote_signature vote) <&&>
  (hb ← get_block_from_hash (head_hash m) node_state;
   Ok (is_validator (sender vote)
         (get_validator_set_for_slot hb (vm_slot m) node_state))) <&&>
  is_ancestor_descendant_of_hashes fuel
    (cp_block_hash (ffg_source m)) (cp_block_hash (ffg_target m)) node_state <&&>
  Ok (chkp_slot (ffg_source m) <? chkp_slot (ffg_target m)) <&&>
  Ok (has_block_hash (cp_block_hash (ffg_source m)) node_state) <&&>
  (sb ← get_block_from_hash (cp_block_hash (ffg_source m)) node_state;
   Ok (slot sb =? block_slot (ffg_source m))) <&&>
  Ok (has_block_hash (cp_block_hash (ffg_target m)) node_state) <&&>
  (tb ← get_block_from_hash (cp_block_hash (ffg_target m)) node_state;
   Ok (slot tb =? block_slot (ffg_target m))).

(** [is_FFG_vote_in_support_of_checkpoint_justification] and
    [is_justified_checkpoint] call each other; the first is written
    against the recursive call [justified] of the second. *)
Definition is_FFG_vote_in_support_with (justified : Checkpoint → Result bool)
    (fuel : nat) (vote : SignedVoteMessage) (checkpoint : Checkpoint)
    (node_state : CommonNodeState) : Result bool :=
  let m := message vote in
  valid_FFG_vote fuel vote node_state <&&>
  Ok (chkp_slot (ffg_target m) =? chkp_slot checkpoint) <&&>
  is_ancestor_descendant_of_hashes fuel
    (cp_block_hash checkpoint) (cp_block_hash (ffg_target m)) node_state <&&>
  is_ancestor_descendant_of_hashes fuel
    (cp_block_hash (ffg_source m)) (cp_block_hash checkpoint) node_state <&&>
  justified (ffg_source m).

Definition filter_out_FFG_votes_not_in_support_with (justified : Checkpoint → Result bool)
    (fuel : nat) (votes : gset SignedVoteMessage) (checkpoint : Checkpoint)
    (node_state : CommonNodeState) : Result (gset SignedVoteMessage) :=
  pset_filter_r
    (λ vote, is_FFG_vote_in_support_with justified fuel vote checkpoint node_state) votes.

Definition get_validators_in_FFG_support_with (justified : Checkpoint → Result bool)
    (fuel : nat) (votes : gset SignedVoteMessage) (checkpoint : Checkpoint)
    (node_state : CommonNodeState) : Result (gset NodeIdentity) :=
  vs ← filter_out_FFG_votes_not_in_support_with justified fuel votes checkpoint node_state;
  Ok (pset_map_to_pset sender vs).

Definition supermajority (FFG_support_weight tot_validator_set_weight : Z) : bool :=
  bool_decide (tot_validator_set_weight * 2 ≤ FFG_support_weight * 3).

Fixpoint is_justified_checkpoint (fuel : nat) (checkpoint : Checkpoint)
    (node_state : CommonNodeState) : Result bool :=
  match fuel with
  | O => Raise OutOfFuel
  | S fuel' =>
      if decide (checkpoint = genesis_checkpoint node_state) then Ok true
      else if negb (has_block_hash (cp_block_hash checkpoint) node_state) then Ok false
      else
        b ← get_block_from_hash (cp_block_hash checkpoint) node_state;
        complete ← is_complete_chain fuel' b node_state;
        if negb complete then Ok false
        else
          b' ← get_block_from_hash (cp_block_hash checkpoint) node_state;
          let validatorBalances :=
            get_validator_set_for_slot b' (block_slot checkpoint) node_state in
          supporters ← get_validators_in_FFG_support_with
                         (λ c, is_justified_checkpoint fuel' c node_state)
                         fuel' (view_votes node_state) checkpoint node_state;
          let FFG_support_weight := validator_set_weight supporters validatorBalances in
          let tot_validator_set_weight :=
            validator_set_weight (dom validatorBalances) validatorBalances in
          Ok (supermajority FFG_support_weight tot_validator_set_weight)
  end.

Definition is_FFG_vote_in_support_of_checkpoint_justification (fuel : nat)
    (vote : SignedVoteMessage) (checkpoint : Checkpoint) (node_state : CommonNodeState)
  : Result bool :=
  is_FFG_vote_in_support_with (λ c, is_justified_checkpoint fuel c node_state)
    fuel vote checkpoint node_state.

Definition get_validators_in_FFG_support_of_checkpoint_justification (fuel : nat)
    (votes : gset SignedVoteMessage) (checkpoint : Checkpoint)
    (node_state : CommonNodeState) : Result (gset NodeIdentity) :=
  get_validators_in_FFG_support_with (λ c, is_justified_checkpoint fuel c node_state)
    fuel votes checkpoint node_state.

Definition filter_out_non_justified_checkpoint (fuel : nat) (checkpoints : gset Checkpoint)
    (node_state : CommonNodeState) : Result (gset Checkpoint) :=
  pset_filter_r (λ checkpoint, is_justified_checkpoint fuel checkpoint node_state) checkpoints.

Definition get_justified_checkpoints (fuel : nat) (node_state : CommonNodeState)
  : Result (gset Checkpoint) :=
  js ← filter_out_non_justified_checkpoint fuel
         (get_set_FFG_targets (view_votes node_state)) node_state;
  Ok (js ∪ {[ genesis_checkpoint node_state ]}).

Definition checkpoint_key (c : Checkpoint) : Z * Z := (chkp_slot c, block_slot c).

(** The set handed to [pset_max] holds the genesis checkpoint, so the
    [ValueError] of an empty [max] cannot occur. *)
Definition get_greatest_justified_checkpoint (fuel : nat) (node_state : CommonNodeState)
  : Result Checkpoint :=
  js ← get_justified_checkpoints fuel node_state;
  match pset_max tuple_lt checkpoint_key js with
  | Some c => Ok c
  | None => Raise ValueError
  end.

Definition is_FFG_vote_linking_to_a_checkpoint_in_next_slot (fuel : nat)
    (vote : SignedVoteMessage) (checkpoint : Checkpoint) (node_state : CommonNodeState)
  : Result bool :=
  valid_FFG_vote fuel vote node_state <&&>
  Ok (bool_decide (ffg_source (message vote) = checkpoint)) <&&>
  Ok (chkp_slot (ffg_target (message vote)) =? chkp_slot checkpoint + 1).

Definition filter_out_FFG_vote_not_linking_to_a_checkpoint_in_next_slot (fuel : nat)
    (checkpoint : Checkpoint) (node_state : CommonNodeState)
  : Result (gset SignedVoteMessage) :=
  pset_filter_r
    (λ vote, is_FFG_vote_linking_to_a_checkpoint_in_next_slot fuel vote checkpoint node_state)
    (view_votes node_state).

Definition get_validators_in_FFG_votes_linking_to_a_checkpoint_in_next_slot (fuel : nat)
    (checkpoint : Checkpoint) (node_state : CommonNodeState) : Result (gset NodeIdentity) :=
  vs ← filter_out_FFG_vote_not_linking_to_a_checkpoint_in_next_slot fuel checkpoint node_state;
  Ok (pset_map_to_pset sender vs).

Definition is_finalized_checkpoint (fuel : nat) (checkpoint : Checkpoint)
    (node_state : CommonNodeState) : Result bool :=
  j ← is_justified_checkpoint fuel checkpoint node_state;
  if negb j then Ok false
  else
    b ← get_block_from_hash (cp_block_hash checkpoint) node_state;
    let validatorBalances :=
      get_validator_set_for_slot b (block_slot checkpoint) node_state in
    linkers ← get_validators_in_FFG_votes_linking_to_a_checkpoint_in_next_slot
                fuel checkpoint node_state;
    let FFG_support_weight := validator_set_weight linkers validatorBalances in
    let tot_validator_set_weight :=
      validator_set_weight (dom validatorBalances) validatorBalances in
    Ok (supermajority FFG_support_weight tot_validator_set_weight).

Definition are_equivocating_votes (vote1 vote2 : SignedVoteMessage) : bool :=
  verify_vote_signature vote1 &&
  verify_vote_signature vote2 &&
  bool_decide (sender vote1 = sender vote2) &&
  bool_decide (vote1 ≠ vote2) &&
  (chkp_slot (ffg_target (message vote1)) =? chkp_slot (ffg_target (message vote2))).

Definition does_first_vote_surround_second_vote (vote1 vote2 : SignedVoteMessage) : bool :=
  verify_vote_signature vote1 &&
  verify_vote_signature vote2 &&
  bool_decide (sender vote1 = sender vote2) &&
  tuple_lt (checkpoint_key (ffg_source (message vote1)))
           (checkpoint_key (ffg_source (message vote2))) &&
  (chkp_slot (ffg_target (message vote2)) <? chkp_slot (ffg_target (message vote1))).

Definition is_slashable_offence (vote1 vote2 : SignedVoteMessage) : bool :=
  are_equivocating_votes vote1 vote2 ||
  does_first_vote_surround_second_vote vote1 vote2 ||
  does_first_vote_surround_second_vote vote2 vote1.

Definition is_slashable_node (node : NodeIdentity) (vote1 vote2 : SignedVoteMessage) : bool :=
  bool_decide (node = sender vote1) && is_slashable_offence vote1 vote2.

Definition pset_is_empty {A : Type} `{Countable A} (s : gset A) : bool :=
  bool_decide (s = ∅).

Definition get_slashabe_nodes (vote_view : gset SignedVoteMessage) : gset NodeIdentity :=
  pset_map_to_pset sender
    (pset_filter
       (λ vote1, negb (pset_is_empty
                         (pset_filter (λ vote2, is_slashable_offence vote1 vote2) vote_view)))
       vote_view).

Definition filter_out_non_finalized_checkpoint (fuel : nat) (checkpoints : gset Checkpoint)
    (node_state : CommonNodeState) : Result (gset Checkpoint) :=
  pset_filter_r (λ checkpoint, is_finalized_checkpoint fuel checkpoint node_state) checkpoints.

Definition get_finalized_checkpoints (fuel : nat) (node_state : CommonNodeState)
  : Result (gset Checkpoint) :=
  fs ← filter_out_non_finalized_checkpoint fuel
         (get_set_FFG_targets (view_votes node_state)) node_state;
  Ok (fs ∪ {[ genesis_checkpoint node_state ]}).

Definition get_greatest_finalized_checkpoint (fuel : nat) (node_state : CommonNodeState)
  : Result Checkpoint :=
  fs ← get_finalized_checkpoints fuel node_state;
  match pset_max Z.ltb chkp_slot fs with
  | Some c => Ok c
  | None => Raise ValueError
  end.
End FFG.

(** ** [high_level/protocols/rlmd]: data structures and helpers *)

Module RLMD.

Record NodeState : Type := mkNodeState {
  common : CommonNodeState;
  current_phase : NodePhase;
  buffer_votes : gset SignedVoteMessage;
  buffer_blocks : BlockView
}.

(** The values the helpers hand to [NodeState.set]. *)
Inductive FieldValue : Type :=
| CommonValue (c : CommonNodeState)
| PhaseValue (p : NodePhase)
| VotesValue (vs : gset SignedVoteMessage)
| BlocksValue (bs : BlockView).

(** [node_state.set(name=value)]. [rlmd_data_structures.py] declares
    [current_phase], [buffer_votes] and [buffer_blocks] with [field()];
    [common] is only annotated, which declares no field of a [PRecord], and
    [set] raises [AttributeError] on a name that is not a field. The helpers
    hand a common state to [set] under the name [common] only. *)
Definition precord_set (node_state : NodeState) (name : string) (value : FieldValue)
  : Result NodeState :=
  match value with
  | CommonValue _ => Raise AttributeError
  | PhaseValue p =>
      if decide (name = "current_phase")
      then Ok {| common := common node_state;
                 current_phase := p;
                 buffer_votes := buffer_votes node_state;
                 buffer_blocks := buffer_blocks node_state |}
      else Raise AttributeError
  | VotesValue vs =>
      if decide (name = "buffer_votes")
      then Ok {| common := common node_state;
                 current_phase := current_phase node_state;
                 buffer_votes := vs;
                 buffer_blocks := buffer_blocks node_state |}
      else Raise AttributeError
  | BlocksValue bs =>
      if decide (name = "buffer_blocks")
      then Ok {| common := common node_state;
                 current_phase := current_phase node_state;
                 buffer_votes := buffer_votes node_state;
                 buffer_blocks := bs |}
      else Raise AttributeError
  end.

(** [CommonNodeState.set] on [view_blocks] and [view_votes], both declared
    with [field()]. *)
Definition set_view_blocks (c : CommonNodeState) (bs : BlockView) : CommonNodeState :=
  {| configuration := configuration c;
     identity := identity c;
     current_slot := current_slot c;
     view_blocks := bs;
     view_votes := view_votes c;
     chava := chava c |}.

Definition set_view_votes (c : CommonNodeState) (vs : gset SignedVoteMessage)
  : CommonNodeState :=
  {| configuration := configuration c;
     identity := identity c;
     current_slot := current_slot c;
     view_blocks := view_blocks c;
     view_votes := vs;
     chava := chava c |}.

(** Python's [//] and [%] round towards minus infinity, as [Z.div] and
    [Z.modulo] do; unlike them, they raise on a zero divisor. *)
Definition get_slot_from_time (time : Z) (node_state : NodeState) : Result Z :=
  if 4 * delta (configuration (common node_state)) =? 0 then Raise ZeroDivisionError
  else Ok (time / (4 * delta (configuration (common node_state)))).

Definition get_phase_from_time (time : Z) (node_state : NodeState) : Result NodePhase :=
  if 4 * delta (configuration (common node_state)) =? 0 then Raise ZeroDivisionError
  else
    let time_in_slot := time mod (4 * delta (configuration (common node_state))) in
    if 3 * delta (configuration (common node_state)) <=? time_in_slot then Ok MERGE
    else if 2 * delta (configuration (common node_state)) <=? time_in_slot then Ok CONFIRM
    else if delta (configuration (common node_state)) <=? time_in_slot then Ok VOTE
    else Ok PROPOSE.

Section Helpers.
Context {stubs : Stubs}.

Definition filter_out_GHOST_votes_non_descendant_of_block (fuel : nat) (block : Block)
    (votes : gset SignedVoteMessage) (node_state : NodeState)
  : Result (gset SignedVoteMessage) :=
  pset_filter_r
    (λ vote,
       Ok (has_block_hash (head_hash (message vote)) (common node_state)) <&&>
       (hb ← get_block_from_hash (head_hash (message vote)) (common node_state);
        is_ancestor_descendant_relationship fuel block hb (common node_state)))
    votes.

Definition is_GHOST_vote_expired (vote : SignedVoteMessage) (node_state : NodeState) : bool :=
  vm_slot (message vote) + eta (configuration (common node_state))
    <? current_slot (common node_state).

Definition filter_out_expired_GHOST_votes (votes : gset SignedVoteMessage)
    (node_state : NodeState) : gset SignedVoteMessage :=
  pset_filter (λ vote, is_GHOST_vote_expired vote node_state) votes.

(** The loop of [filter_out_non_LMD_GHOST_votes], one vote at a time. *)
Definition lmd_step (lmd : gmap NodeIdentity SignedVoteMessage) (vote : SignedVoteMessage)
  : gmap NodeIdentity SignedVoteMessage :=
  match lmd !! sender vote with
  | None => <[ sender vote := vote ]> lmd
  | Some old =>
      if vm_slot (message old) <? vm_slot (message vote)
      then <[ sender vote := vote ]> lmd
      else lmd
  end.

Definition filter_out_non_LMD_GHOST_votes (votes : gset SignedVoteMessage)
  : gset SignedVoteMessage :=
  map_img (foldl lmd_step ∅ (elements votes)).

Definition is_equivocating_GHOST_vote (vote : SignedVoteMessage) (node_state : NodeState)
  : bool :=
  negb (pset_is_empty
          (pset_filter
             (λ vote_check,
                (vm_slot (message vote_check) =? vm_slot (message vote)) &&
                bool_decide (sender vote_check = sender vote) &&
                bool_decide (head_hash (message vote_check) ≠ head_hash (message vote)))
             (view_votes (common node_state)))).

Definition filter_out_GHOST_equivocating_votes (votes : gset SignedVoteMessage)
    (node_state : NodeState) : gset SignedVoteMessage :=
  pset_filter (λ vote, negb (is_equivocating_GHOST_vote vote node_state)) votes.

Definition valid_vote (fuel : nat) (vote : SignedVoteMessage) (node_state : NodeState)
  : Result bool :=
  let m := message vote in
  let c := common node_state in
  Ok (verify_vote_signature vote) <&&>
  valid_FFG_vote fuel vote c <&&>
  Ok (has_block_hash (head_hash m) c) <&&>
  (hb ← get_block_from_hash (head_hash m) c; is_complete_chain fuel hb c) <&&>
  (hb ← get_block_from_hash (head_hash m) c;
   Ok (is_validator (sender vote) (get_validator_set_for_slot hb (vm_slot m) c))) <&&>
  is_ancestor_descendant_of_hashes fuel (cp_block_hash (ffg_target m)) (head_hash m) c.

Definition filter_out_invalid_votes (fuel : nat) (votes : gset SignedVoteMessage)
    (node_state : NodeState) : Result (gset SignedVoteMessage) :=
  pset_filter_r (λ vote, valid_vote fuel vote node_state) votes.

(** The weight of one vote inside [get_GHOST_weight]: the filter and the
    balance lookup, which the filter guards with [is_validator]. *)
Definition counts_for_block (fuel : nat) (block : Block) (node_state : NodeState)
    (validatorBalances : ValidatorBalances) (vote : SignedVoteMessage) : Result bool :=
  Ok (has_block_hash (head_hash (message vote)) (common node_state)) <&&>
  (hb ← get_block_from_hash (head_hash (message vote)) (common node_state);
   is_ancestor_descendant_relationship fuel block hb (common node_state)) <&&>
  Ok (is_validator (sender vote) validatorBalances).

Definition get_GHOST_weight (fuel : nat) (block : Block) (votes : gset SignedVoteMessage)
    (node_state : NodeState) (validatorBalances : ValidatorBalances) : Result Z :=
  vs ← pset_filter_r (counts_for_block fuel block node_state validatorBalances) votes;
  Ok (pset_sum (pset_map (λ vote, validatorBalances !!! sender vote) vs)).

Definition get_children (block : Block) (node_state : NodeState) : gset Block :=
  pset_filter (λ b, bool_decide (parent_hash b = block_hash block))
    (get_all_blocks (common node_state)).

(** [max(children, key=...)]: the key is computed for every child, in
    iteration order, and an exception raised by it is propagated. *)
Fixpoint keyed {A K : Type} (key : A → Result K) (l : list A) : Result (list (A * K)) :=
  match l with
  | [] => Ok []
  | x :: l' => w ← key x; r ← keyed key l'; Ok ((x, w) :: r)
  end.

Definition max_by_weight (l : list (Block * Z)) : option Block :=
  match l with
  | [] => None
  | x :: l' =>
      Some (foldl (λ best y, if best.2 <? y.2 then y else best) x l').1
  end.

Fixpoint find_head_from (fuel : nat) (block : Block) (votes : gset SignedVoteMessage)
    (node_state : NodeState) (validatorBalances : ValidatorBalances) : Result Block :=
  match fuel with
  | O => Raise OutOfFuel
  | S fuel' =>
      let children := get_children block node_state in
      if (size children =? 0)%nat then Ok block
      else
        ws ← keyed (λ child,
                get_GHOST_weight fuel' child votes node_state validatorBalances)
              (elements children);
        match max_by_weight ws with
        | Some best_child =>
            find_head_from fuel' best_child votes node_state validatorBalances
        | None => Raise ValueError
        end
  end.

Definition get_head (fuel : nat) (node_state : NodeState) : Result Block :=
  let c := common node_state in
  gj ← get_greatest_justified_checkpoint fuel c;
  gjb ← get_block_from_hash (cp_block_hash gj) c;
  valid ← filter_out_invalid_votes fuel (view_votes c) node_state;
  relevant_votes ←
    filter_out_GHOST_votes_non_descendant_of_block fuel gjb
      (filter_out_non_LMD_GHOST_votes
         (filter_out_expired_GHOST_votes
            (filter_out_GHOST_equivocating_votes valid node_state)
            node_state))
      node_state;
  let validatorBalances := get_validator_set_for_slot gjb (current_slot c) c in
  find_head_from fuel gjb relevant_votes node_state validatorBalances.

Definition execute_view_merge (node_state : NodeState) : Result NodeState :=
  node_state ← precord_set node_state "common"
    (CommonValue
       (set_view_blocks (common node_state)
          (pmap_merge (view_blocks (common node_state)) (buffer_blocks node_state))));
  node_state ← precord_set node_state "common"
    (CommonValue
       (set_view_votes (common node_state)
          ((view_votes (common node_state) ∪ buffer_votes node_state) ∪
           get_votes_included_in_blocks (get_all_blocks (common node_state)))));
  node_state ← precord_set node_state "buffer_votes" (VotesValue ∅);
  node_state ← precord_set node_state "buffer_blocks" (BlocksValue ∅);
  Ok node_state.

(** The view that the two updates of [common] in [execute_view_merge]
    compute: the blocks first, then the votes over the merged blocks. *)
Definition merged_common (node_state : NodeState) : CommonNodeState :=
  let c :=
    set_view_blocks (common node_state)
      (pmap_merge (view_blocks (common node_state)) (buffer_blocks node_state)) in
  set_view_votes c
    ((view_votes c ∪ buffer_votes node_state) ∪
     get_votes_included_in_blocks (get_all_blocks c)).

Definition is_GHOST_vote_for_block_in_blockchain (fuel : nat) (vote : SignedVoteMessage)
    (blockchainHead : Block) (node_state : NodeState) : Result bool :=
  Ok (has_block_hash (head_hash (message vote)) (common node_state)) <&&>
  (hb ← get_block_from_hash (head_hash (message vote)) (common node_state);
   is_ancestor_descendant_relationship fuel hb blockchainHead (common node_state)).

Definition filter_out_GHOST_votes_not_for_blocks_in_blockchain (fuel : nat)
    (votes : gset SignedVoteMessage) (blockchainHead : Block) (node_state : NodeState)
  : Result (gset SignedVoteMessage) :=
  pset_filter_r
    (λ vote, is_GHOST_vote_for_block_in_blockchain fuel vote blockchainHead node_state)
    votes.

Definition filter_out_GHOST_votes_for_blocks_in_blockchain (fuel : nat)
    (votes : gset SignedVoteMessage) (blockchainHead : Block) (node_state : NodeState)
  : Result (gset SignedVoteMessage) :=
  pset_filter_r
    (λ vote,
       b ← is_GHOST_vote_for_block_in_blockchain fuel vote blockchainHead node_state;
       Ok (negb b))
    votes.

Fixpoint get_votes_included_in_blockchain (fuel : nat) (block : Block)
    (node_state : NodeState) : Result (gset SignedVoteMessage) :=
  match fuel with
  | O => Raise OutOfFuel
  | S fuel' =>
      if decide (block = genesis (configuration (common node_state)))
      then Ok (votes block)
      else if negb (has_block_hash (parent_hash block) (common node_state))
      then Ok (votes block)
      else
        p ← get_block_from_hash (parent_hash block) (common node_state);
        rest ← get_votes_included_in_blockchain fuel' p node_state;
        Ok (votes block ∪ rest)
  end.

Definition votes_to_include_in_proposed_block (fuel : nat) (node_state : NodeState)
  : Result (gset SignedVoteMessage) :=
  head_block ← get_head fuel node_state;
  valid ← filter_out_invalid_votes fuel (view_votes (common node_state)) node_state;
  votes_for_blocks_in_canonical_chain ←
    filter_out_GHOST_votes_not_for_blocks_in_blockchain fuel valid head_block node_state;
  included ← get_votes_included_in_blockchain fuel head_block node_state;
  Ok (votes_for_blocks_in_canonical_chain ∖ included).

(** [get_block_body] belongs to the environment; the body is opaque. *)
Definition get_new_block (fuel : nat) (node_state : NodeState) : Result Block :=
  head_block ← get_head fuel node_state;
  vs ← votes_to_include_in_proposed_block fuel node_state;
  Ok {| parent_hash := block_hash head_block;
        slot := current_slot (common node_state);
        votes := vs;
        body := tt |}.

Fixpoint get_block_k_deep (fuel : nat) (blockHead : Block) (k : Z) (node_state : NodeState)
  : Result Block :=
  match fuel with
  | O => Raise OutOfFuel
  | S fuel' =>
      _ ← is_complete_chain fuel blockHead (common node_state);
      if (k <=? 0) || bool_decide (blockHead = genesis (configuration (common node_state)))
      then Ok blockHead
      else
        p ← get_parent blockHead (common node_state);
        get_block_k_deep fuel' p (k - 1) node_state
  end.

Definition is_confirmed (fuel : nat) (block : Block) (node_state : NodeState) : Result bool :=
  let c := common node_state in
  head_block ← get_head fuel node_state;
  gj ← get_greatest_justified_checkpoint fuel c;
  gjb ← get_block_from_hash (cp_block_hash gj) c;
  let validatorBalances := get_validator_set_for_slot gjb (current_slot c) c in
  let tot_validator_set_weight :=
    validator_set_weight (dom validatorBalances) validatorBalances in
  is_ancestor_descendant_relationship fuel block head_block c <&&>
  (w ← get_GHOST_weight fuel block (view_votes c) node_state validatorBalances;
   Ok (bool_decide (tot_validator_set_weight * 2 ≤ w * 3))).

Definition filter_out_not_confirmed (fuel : nat) (blocks : gset Block)
    (node_state : NodeState) : Result (gset Block) :=
  pset_filter_r (λ block, is_confirmed fuel block node_state) blocks.
End Helpers.

End RLMD.

(** ** [ga_based/helpers.py] *)

Module GaBased.

(** Modelled from the spec: the [NodeState] record of
    [ga_based/data_structures.py] (not part of the sources at hand), with the
    fields of the data model: the helpers read [time], [configuration],
    [blocks], [votes], [buffer_blocks], [buffer_votes],
    [vote_receival_times], [greatest_justified_checkpoint] and
    [highest_candidate_block]. *)
Record NodeState : Type := mkNodeState {
  configuration : Configuration;
  identity : NodeIdentity;
  time : Z;
  blocks : BlockView;
  votes : gset SignedVoteMessage;
  buffer_blocks : BlockView;
  buffer_votes : gset SignedVoteMessage;
  vote_receival_times : gmap SignedVoteMessage Z;
  greatest_justified_checkpoint : Checkpoint;
  highest_candidate_block : Block
}.

(** The values [execute_view_merge] hands to [PRecord.set]. *)
Inductive FieldValue : Type :=
| BlocksValue (bs : BlockView)
| VotesValue (vs : gset SignedVoteMessage).

(** [node_state.set(name=value)]: a [PRecord] accepts the fields it declares
    and raises [AttributeError] on any other name. *)
Definition precord_set (node_state : NodeState) (name : string) (value : FieldValue)
  : Result NodeState :=
  let '(mkNodeState cfg id t bs vs bbs bvs rt gj hc) := node_state in
  match value with
  | BlocksValue m =>
      if decide (name = "blocks") then Ok (mkNodeState cfg id t m vs bbs bvs rt gj hc)
      else if decide (name = "buffer_blocks")
           then Ok (mkNodeState cfg id t bs vs m bvs rt gj hc)
           else Raise AttributeError
  | VotesValue s =>
      if decide (name = "votes") then Ok (mkNodeState cfg id t bs s bbs bvs rt gj hc)
      else if decide (name = "buffer_votes")
           then Ok (mkNodeState cfg id t bs vs bbs s rt gj hc)
           else Raise AttributeError
  end.

Definition get_slot_from_time (time : Z) (node_state : NodeState) : Result Z :=
  if 4 * delta (configuration node_state) =? 0 then Raise ZeroDivisionError
  else Ok (time / (4 * delta (configuration node_state))).

Definition get_phase_from_time (time : Z) (node_state : NodeState) : Result NodePhase :=
  if 4 * delta (configuration node_state) =? 0 then Raise ZeroDivisionError
  else
    let time_in_slot := time mod (4 * delta (configuration node_state)) in
    if 3 * delta (configuration node_state) <=? time_in_slot then Ok MERGE
    else if 2 * delta (configuration node_state) <=? time_in_slot then Ok CONFIRM
    else if delta (configuration node_state) <=? time_in_slot then Ok VOTE
    else Ok PROPOSE.

Definition get_slot (node_state : NodeState) : Result Z :=
  get_slot_from_time (time node_state) node_state.

Definition get_phase (node_state : NodeState) : Result NodePhase :=
  get_phase_from_time (time node_state) node_state.

Definition get_all_blocks (node_state : NodeState) : gset Block :=
  map_img (blocks node_state).

Definition is_head_vote_expired (vote : SignedVoteMessage) (node_state : NodeState)
  : Result bool :=
  s ← get_slot node_state;
  Ok (vm_slot (message vote) + eta (configuration node_state) <? s).

Definition filter_out_expired_head_votes (votes : gset SignedVoteMessage)
    (node_state : NodeState) : Result (gset SignedVoteMessage) :=
  pset_filter_r (λ vote, is_head_vote_expired vote node_state) votes.

Definition execute_view_merge (node_state : NodeState) : Result NodeState :=
  node_state ← precord_set node_state "blocks"
    (BlocksValue (pmap_merge (blocks node_state) (buffer_blocks node_state)));
  node_state ← precord_set node_state "view_vote"
    (VotesValue ((votes node_state ∪ buffer_votes node_state) ∪
                 get_votes_included_in_blocks (get_all_blocks node_state)));
  node_state ← precord_set node_state "buffer_vote" (VotesValue ∅);
  node_state ← precord_set node_state "buffer_blocks" (BlocksValue ∅);
  Ok node_state.


(** [pmap_get] raises on a vote whose time of receipt was never recorded. *)
Definition is_head_vote_received_timely (vote : SignedVoteMessage) (node_state : NodeState)
  : Result bool :=
  match vote_receival_times node_state !! vote with
  | None => Raise KeyError
  | Some receival_time =>
      current_slot ← get_slot node_state;
      Ok (receival_time <=?
            4 * delta (configuration node_state) * current_slot
            - delta (configuration node_state))
  end.

Definition filter_out_late_received_head_votes (votes : gset SignedVoteMessage)
    (node_state : NodeState) : Result (gset SignedVoteMessage) :=
  pset_filter_r (λ vote, is_head_vote_received_timely vote node_state) votes.

Definition is_greater_checkpoint (checkpoint1 checkpoint2 : Checkpoint) : bool :=
  tuple_lt (checkpoint_key checkpoint2) (checkpoint_key checkpoint1).
End GaBased.

(** ** [pyspec/beacon_chain.py] *)

Module PySpec.

Definition K_DEEP_CONFIRMATION_PARAMETER : Z := 64.

(** Modelled from the spec: the constant [GENESIS_SLOT], which
    [beacon_chain.py] uses without defining it; "k_deep_slot(s) = max(0, s − k)"
    places the genesis slot at 0. *)
Definition GENESIS_SLOT : Z := 0.

(** The body assigns the local [k_deep_slot] and ends without a [return]:
    the call evaluates to Python's [None], here [None : option Z]. *)
Definition get_k_deep_slot (slot : Z) : option Z :=
  let k_deep_slot :=
    if K_DEEP_CONFIRMATION_PARAMETER <=? slot
    then slot - K_DEEP_CONFIRMATION_PARAMETER
    else GENESIS_SLOT in
  None.


Definition SLOTS_PER_HISTORICAL_ROOT : Z := 2 ^ 17.

(** Modelled from the spec: the part of [BeaconState] that [get_block_root]
    and [get_state_root] read, the SSZ types being declared outside the
    sources at hand: a slot and two vectors of [SLOTS_PER_HISTORICAL_ROOT]
    roots, indexed from 0. *)
Record BeaconState : Type := mkBeaconState {
  state_slot : Z;
  block_roots : Z → Hash;
  state_roots : Z → Hash
}.

(** A failed [assert] raises [AssertionError], here [None]. *)
Definition get_block_root (state : BeaconState) (slot : Z) : option Hash :=
  if (slot <? state_slot state) && (state_slot state <=? slot + SLOTS_PER_HISTORICAL_ROOT)
  then Some (block_roots state (slot mod SLOTS_PER_HISTORICAL_ROOT))
  else None.

Definition get_state_root (state : BeaconState) (slot : Z) : option Hash :=
  if (slot <? state_slot state) && (state_slot state <=? slot + SLOTS_PER_HISTORICAL_ROOT)
  then Some (state_roots state (slot mod SLOTS_PER_HISTORICAL_ROOT))
  else None.
End PySpec.

(** * Scenarios and specification-side definitions *)

Definition clock_state (d : Z) : RLMD.NodeState :=
  RLMD.mkNodeState
    (mkCommonNodeState (mkConfiguration d (mkBlock "" 0 ∅ tt) 3 2) "n" 0 ∅ ∅ (mkBlock "" 0 ∅ tt))
    PROPOSE ∅ ∅.

Definition expiry_vote (s : Z) : SignedVoteMessage :=
  mkSignedVoteMessage
    (mkVoteMessage s "g" (mkCheckpoint "g" 0 0) (mkCheckpoint "g" 1 0)) tt "v1".

Definition expiry_state : RLMD.NodeState :=
  RLMD.mkNodeState
    (mkCommonNodeState (mkConfiguration 1 (mkBlock "" 0 ∅ tt) 3 2) "n" 10 ∅ ∅
       (mkBlock "" 0 ∅ tt))
    PROPOSE ∅ ∅.

Definition ga_merge_state : GaBased.NodeState :=
  GaBased.mkNodeState (mkConfiguration 1 (mkBlock "" 0 ∅ tt) 3 2) "n" 3
    ∅ ∅ ∅ {[ expiry_vote 0 ]} ∅ (mkCheckpoint "g" 0 0) (mkBlock "" 0 ∅ tt).

(** The pairwise offences as the specification words them. *)
Definition lex_lt (a b : Z * Z) : Prop := a.1 < b.1 ∨ (a.1 = b.1 ∧ a.2 < b.2).

Definition equivocation (v1 v2 : SignedVoteMessage) : Prop :=
  sender v1 = sender v2 ∧ v1 ≠ v2 ∧
  chkp_slot (ffg_target (message v1)) = chkp_slot (ffg_target (message v2)).

Definition surrounds (v1 v2 : SignedVoteMessage) : Prop :=
  sender v1 = sender v2 ∧
  lex_lt (checkpoint_key (ffg_source (message v1))) (checkpoint_key (ffg_source (message v2))) ∧
  chkp_slot (ffg_target (message v2)) < chkp_slot (ffg_target (message v1)).

Definition slashable_offence_spec (v1 v2 : SignedVoteMessage) : Prop :=
  equivocation v1 v2 ∨ surrounds v1 v2 ∨ surrounds v2 v1.

(** An environment in which no signature verifies. *)
Definition rejecting_stubs : Stubs :=
  {| block_hash := λ b, parent_hash b;
     verify_vote_signature := λ _, false;
     get_validator_set_for_slot := λ _ _ _, ∅ |}.

Definition double_vote (h : Hash) : SignedVoteMessage :=
  mkSignedVoteMessage
    (mkVoteMessage 1 h (mkCheckpoint "g" 0 0) (mkCheckpoint h 1 1)) tt "v1".

(** A three-validator world: the genesis block and two children of it,
    every signature valid, one unit of stake per validator. *)
Definition G0 : Block := mkBlock "" 0 ∅ tt.
Definition A1 : Block := mkBlock "g" 1 ∅ tt.
Definition B2 : Block := mkBlock "g" 2 ∅ tt.

Definition accepting_stubs : Stubs :=
  {| block_hash := λ b, if slot b =? 0 then "g" else if slot b =? 1 then "a" else "b";
     verify_vote_signature := λ _, true;
     get_validator_set_for_slot := λ _ _ _, {[ "v1" := 1; "v2" := 1; "v3" := 1 ]} |}.

Definition cfg0 : Configuration := mkConfiguration 1 G0 3 2.
Definition gcp0 : Checkpoint := mkCheckpoint "g" 0 0.

Definition vote_for (s : Z) (head : Hash) (source target : Checkpoint) (n : NodeIdentity)
  : SignedVoteMessage :=
  mkSignedVoteMessage (mkVoteMessage s head source target) tt n.

(** A view with the genesis block only, holding a vote for a head that the
    view does not know. *)
Definition unknown_head_vote : SignedVoteMessage :=
  vote_for 1 "x" gcp0 (mkCheckpoint "g" 1 0) "v1".

Definition genesis_only_state : CommonNodeState :=
  mkCommonNodeState cfg0 "v1" 1 {[ "g" := G0 ]} {[ unknown_head_vote ]} G0.

(** Two validators link the genesis checkpoint to two different checkpoints
    of slot 1: "v1" to the block of slot 1, "v2", who has not seen that
    block as head, to the genesis block. *)
Definition target_a : Checkpoint := mkCheckpoint "a" 1 1.
Definition target_g : Checkpoint := mkCheckpoint "g" 1 0.
Definition link_vote_a : SignedVoteMessage := vote_for 1 "a" gcp0 target_a "v1".
Definition link_vote_g : SignedVoteMessage := vote_for 1 "g" gcp0 target_g "v2".

Definition split_state : CommonNodeState :=
  mkCommonNodeState cfg0 "v1" 1
    {[ "g" := G0; "a" := A1; "b" := B2 ]} {[ link_vote_a; link_vote_g ]} G0.

Section FinalizationSpec.
Context {stubs : Stubs}.

(** The senders of the valid votes in view that link [C] to [C'] exactly. *)
Definition link_supporters (fuel : nat) (C C' : Checkpoint) (node_state : CommonNodeState)
    (S : gset NodeIdentity) : Prop :=
  ∀ n, n ∈ S ↔
       ∃ v, v ∈ view_votes node_state ∧ sender v = n ∧
            valid_FFG_vote fuel v node_state = Ok true ∧
            ffg_source (message v) = C ∧ ffg_target (message v) = C'.

(** Finalization as the specification words it: [C] is justified and one
    justified checkpoint [C'] of the next slot is linked from [C] by a
    supermajority. *)
Definition finalized_by_single_link (fuel : nat) (C : Checkpoint)
    (node_state : CommonNodeState) : Prop :=
  is_justified_checkpoint fuel C node_state = Ok true ∧
  ∃ C' b S,
    is_justified_checkpoint fuel C' node_state = Ok true ∧
    chkp_slot C' = chkp_slot C + 1 ∧
    get_block_from_hash (cp_block_hash C) node_state = Ok b ∧
    link_supporters fuel C C' node_state S ∧
    let validatorBalances := get_validator_set_for_slot b (block_slot C) node_state in
    validator_set_weight (dom validatorBalances) validatorBalances * 2
      ≤ validator_set_weight S validatorBalances * 3.

(** The senders the code counts: valid votes in view whose source is [C] and
    whose target lies in the next slot, whatever that target is. *)
Definition next_slot_linkers (fuel : nat) (C : Checkpoint) (node_state : CommonNodeState)
    (S : gset NodeIdentity) : Prop :=
  ∀ n, n ∈ S ↔
       ∃ v, v ∈ view_votes node_state ∧ sender v = n ∧
            valid_FFG_vote fuel v node_state = Ok true ∧
            ffg_source (message v) = C ∧
            chkp_slot (ffg_target (message v)) = chkp_slot C + 1.
End FinalizationSpec.

(** A view in which the genesis block has a single child and no vote has
    been cast. *)
Definition lonely_child_state : RLMD.NodeState :=
  RLMD.mkNodeState
    (mkCommonNodeState cfg0 "v1" 1 {[ "g" := G0; "a" := A1 ]} ∅ G0)
    PROPOSE ∅ ∅.

Definition three_balances : ValidatorBalances := {[ "v1" := 1; "v2" := 1; "v3" := 1 ]}.

(** Two votes for the genesis block as head, one for its child. *)
Definition head_votes : gset SignedVoteMessage :=
  {[ vote_for 1 "g" gcp0 (mkCheckpoint "g" 1 0) "v1";
     vote_for 1 "g" gcp0 (mkCheckpoint "g" 1 0) "v2";
     vote_for 1 "a" gcp0 (mkCheckpoint "a" 1 1) "v3" ]}.

(** The [total_vote_weight] of [get_head] in [ga_based/helpers.py]: the
    weight of the senders of the relevant votes. *)
Definition total_vote_weight (relevant_votes : gset SignedVoteMessage)
    (validatorBalances : ValidatorBalances) : Z :=
  validator_set_weight (pset_map_to_pset sender relevant_votes) validatorBalances.

(** The test of [find_head_from] in [ga_based/helpers.py]:
    [get_GHOST_weight(child, ...) > total_vote_weight // 2]. *)
Definition has_majority_support (weight total : Z) : bool := total / 2 <? weight.

(** [fuel_le r r']: the outcome [r'], computed with more fuel than [r], is
    [r] itself unless [r] ran out of fuel. *)
Definition fuel_le {A : Type} (r r' : Result A) : Prop :=
  r = Raise OutOfFuel ∨ r' = r.

(** The parent links of the block view are well founded: [rank] decreases
    from a block of the view (other than genesis) to its parent, and stays
    below [R] on the view. This holds of every view filled through
    [block_hash], a block being hashed after its parent. *)
Definition parents_ranked (node_state : CommonNodeState) (rank : Block → nat) (R : nat)
  : Prop :=
  (∀ h b p, view_blocks node_state !! h = Some b →
            b ≠ genesis (configuration node_state) →
            view_blocks node_state !! parent_hash b = Some p →
            (rank p < rank b)%nat) ∧
  (∀ h b, view_blocks node_state !! h = Some b → (rank b < R)%nat).

Definition in_view (b : Block) (node_state : CommonNodeState) : Prop :=
  ∃ h, view_blocks node_state !! h = Some b.

(** The votes in view whose source lies strictly below [C]: the recursion of
    [is_justified_checkpoint] at [C] can only pass through these. *)
Definition votes_below (C : Checkpoint) (node_state : CommonNodeState)
  : gset SignedVoteMessage :=
  filter (λ v, chkp_slot (ffg_source (message v)) < chkp_slot C) (view_votes node_state).

(** View growth: the same configuration, and every block binding and vote
    of the old view is in the new one. *)
Definition view_grows (node_state node_state' : CommonNodeState) : Prop :=
  configuration node_state = configuration node_state' ∧
  view_blocks node_state ⊆ view_blocks node_state' ∧
  view_votes node_state ⊆ view_votes node_state'.

Section Balances.
Context {stubs : Stubs}.

(** The validator-set oracle answers by block and slot alone ("lookups are
    read-only and pure for a fixed (block, slot)"). *)
Definition balances_stable (node_state node_state' : CommonNodeState) : Prop :=
  ∀ b s, get_validator_set_for_slot b s node_state
         = get_validator_set_for_slot b s node_state'.

(** Stakes are non-negative. *)
Definition balances_nonneg (node_state : CommonNodeState) : Prop :=
  ∀ b s n w, get_validator_set_for_slot b s node_state !! n = Some w → 0 ≤ w.
End Balances.

(** The view of [split_state] before any vote is seen, and after all three
    validators have voted for the checkpoint ("a", 1, 1). *)
Definition quiet_state : CommonNodeState :=
  mkCommonNodeState cfg0 "v1" 1 {[ "g" := G0; "a" := A1; "b" := B2 ]} ∅ G0.

Definition voted_state : CommonNodeState :=
  mkCommonNodeState cfg0 "v1" 1 {[ "g" := G0; "a" := A1; "b" := B2 ]}
    {[ vote_for 1 "a" gcp0 target_a "v1";
       vote_for 1 "a" gcp0 target_a "v2";
       vote_for 1 "a" gcp0 target_a "v3" ]} G0.

Definition slot_rank (b : Block) : nat := Z.to_nat (slot b).

(** A view in which the block stored under "x" names "x" as its parent. *)
Definition X1 : Block := mkBlock "x" 1 ∅ tt.

Definition cyclic_state : CommonNodeState :=
  mkCommonNodeState cfg0 "v1" 1 {[ "g" := G0; "x" := X1 ]} ∅ G0.

(** An environment whose hash tells the two blocks of [cyclic_state] apart
    and files each of them under its own hash. *)
Definition cyclic_stubs : Stubs :=
  {| block_hash := λ b, if slot b =? 0 then "g" else "x";
     verify_vote_signature := λ _, true;
     get_validator_set_for_slot := λ _ _ _, {[ "v1" := 1; "v2" := 1; "v3" := 1 ]} |}.

(** A chain of three blocks: genesis, its child and its grandchild. *)
Definition C2 : Block := mkBlock "a" 2 ∅ tt.

Definition chain_state : CommonNodeState :=
  mkCommonNodeState cfg0 "v1" 2 {[ "g" := G0; "a" := A1; "b" := C2 ]} ∅ G0.

(** The same view without the middle block: the grandchild is an orphan. *)
Definition orphan_state : CommonNodeState :=
  mkCommonNodeState cfg0 "v1" 2 {[ "g" := G0; "b" := C2 ]} ∅ G0.

Definition chain_node_state : RLMD.NodeState :=
  RLMD.mkNodeState chain_state PROPOSE ∅ ∅.

(** The invariant of the loop of [filter_out_non_LMD_GHOST_votes]: after
    the votes [seen], the map holds under each sender one of its votes seen,
    of a slot no vote seen of that sender exceeds. *)
Definition lmd_inv (seen : list SignedVoteMessage)
    (lmd : gmap NodeIdentity SignedVoteMessage) : Prop :=
  (∀ n v, lmd !! n = Some v → sender v = n ∧ v ∈ seen) ∧
  (∀ v, v ∈ seen →
        ∃ v', lmd !! sender v = Some v' ∧ vm_slot (message v) ≤ vm_slot (message v')).

(** Votes of "v1" for three slots and one vote of "v2". *)
Definition lmd_votes : gset SignedVoteMessage :=
  {[ vote_for 1 "g" gcp0 target_g "v1";
     vote_for 3 "a" gcp0 target_a "v1";
     vote_for 2 "g" gcp0 target_g "v1";
     vote_for 2 "a" gcp0 target_a "v2" ]}.

(** "v1" votes twice in slot 1, for two heads; "v2" votes twice for one
    head, with two targets. *)
Definition equivocating_view : RLMD.NodeState :=
  RLMD.mkNodeState
    (mkCommonNodeState cfg0 "v1" 1 {[ "g" := G0; "a" := A1 ]}
       {[ vote_for 1 "g" gcp0 target_g "v1";
          vote_for 1 "a" gcp0 target_a "v1";
          vote_for 1 "a" gcp0 target_a "v2";
          vote_for 1 "a" gcp0 target_g "v2" ]} G0)
    PROPOSE ∅ ∅.

(** The values of the [NodePhase] enumeration. *)
Definition NodePhase_value (phase : NodePhase) : Z :=
  match phase with
  | PROPOSE => 0
  | VOTE => 1
  | CONFIRM => 2
  | MERGE => 3
  end.

(** A [ga_based] state at time 9 with [delta = 1] (slot 2, VOTE): one vote
    was received at time 6 (slot 1, CONFIRM), one at time 8 (slot 2), and
    one has no time of receipt on record. *)
Definition timed_state : GaBased.NodeState :=
  GaBased.mkNodeState cfg0 "n" 9 ∅ ∅ ∅ ∅
    {[ expiry_vote 1 := 6; expiry_vote 2 := 8 ]} gcp0 G0.

Definition ring_state : PySpec.BeaconState :=
  PySpec.mkBeaconState 10 (λ i, if i =? 3 then "c" else "z") (λ _, "s").

(** * Properties *)

(** Reduction is kept from unfolding the embedded functions: their
    equations are used explicitly. *)
Arguments andM : simpl never.
Arguments pset_filter_r : simpl never.
Arguments pset_filter : simpl never.
Arguments pset_map_to_pset : simpl never.
Arguments validator_set_weight : simpl never.
Arguments has_block_hash : simpl never.
Arguments get_block_from_hash : simpl never.
Arguments is_ancestor_descendant_of_hashes : simpl never.
Arguments valid_FFG_vote : simpl never.
Arguments is_FFG_vote_in_support_with : simpl never.
Arguments get_validators_in_FFG_support_with : simpl never.
Arguments is_FFG_vote_linking_to_a_checkpoint_in_next_slot : simpl never.
Arguments supermajority : simpl never.
Arguments genesis_checkpoint : simpl never.

Lemma bind_ret {A B : Type} (a : A) (f : A → Result B) : (Ok a ≫= f) = f a.
Proof. reflexivity. Qed.

Lemma bind_raise {A B : Type} (e : Exn) (f : A → Result B) : (Raise e ≫= f) = Raise e.
Proof. reflexivity. Qed.

Lemma andM_true_l (b : Result bool) : Ok true <&&> b = b.
Proof. reflexivity. Qed.

Lemma andM_false_l (b : Result bool) : Ok false <&&> b = Ok false.
Proof. reflexivity. Qed.

Lemma andM_raise_l (e : Exn) (b : Result bool) : Raise e <&&> b = Raise e.
Proof. reflexivity. Qed.

(** ** The result monad *)

Lemma bind_Ok {A B : Type} (m : Result A) (f : A → Result B) (r : B) :
  (m ≫= f) = Ok r ↔ ∃ a, m = Ok a ∧ f a = Ok r.
Proof.
  destruct m as [a|e]; cbn; split.
  - intros Hf. by exists a.
  - by intros (a' & [= ->] & Hf).
  - discriminate.
  - by intros (a' & Hm & _).
Qed.

Lemma andM_Ok (a b : Result bool) (r : bool) :
  a <&&> b = Ok r ↔ (a = Ok false ∧ r = false) ∨ (a = Ok true ∧ b = Ok r).
Proof.
  unfold andM. destruct a as [[]|e]; cbn; split; try naive_solver.
Qed.

Lemma andM_true (a b : Result bool) :
  a <&&> b = Ok true ↔ a = Ok true ∧ b = Ok true.
Proof. rewrite andM_Ok. naive_solver. Qed.

Lemma andM_OutOfFuel (a b : Result bool) :
  a <&&> b = Raise OutOfFuel →
  a = Raise OutOfFuel ∨ (a = Ok true ∧ b = Raise OutOfFuel).
Proof. unfold andM. destruct a as [[]|e]; cbn; naive_solver. Qed.

(** ** The collection helpers *)

Section GenericFacts.
Context {A : Type} {EqA : EqDecision A} {CntA : Countable A}.

Lemma elem_of_pset_filter (p : A → bool) (s : gset A) (x : A) :
  x ∈ pset_filter p s ↔ p x = true ∧ x ∈ s.
Proof. unfold pset_filter. by rewrite elem_of_filter. Qed.

Lemma filter_r_Ok (p : A → Result bool) (l r : list A) :
  filter_r p l = Ok r →
  (∀ x, x ∈ l → ∃ b, p x = Ok b) ∧ (∀ x, x ∈ r ↔ x ∈ l ∧ p x = Ok true).
Proof.
  revert r. induction l as [|y l IH]; intros r; cbn.
  - intros [= <-]. split; intros x; rewrite ?elem_of_nil; naive_solver.
  - intros (b & Hb & (r' & Hr' & [= <-])%bind_Ok)%bind_Ok.
    destruct (IH _ Hr') as [IH1 IH2]. split.
    + intros x [->|Hx]%elem_of_cons; eauto.
    + intros x. destruct b.
      * rewrite !elem_of_cons, IH2. naive_solver.
      * rewrite elem_of_cons, IH2. split; [naive_solver|].
        intros [[->|Hx] Hp]; [congruence | done].
Qed.

Lemma filter_r_total (p : A → Result bool) (l : list A) :
  (∀ x, x ∈ l → ∃ b, p x = Ok b) → ∃ r, filter_r p l = Ok r.
Proof.
  induction l as [|y l IH]; intros Hall; cbn; [by eexists|].
  destruct (Hall y) as [b ->]; [left|]. cbn.
  destruct IH as [r ->]; [intros x Hx; apply Hall; by right|].
  cbn. by eexists.
Qed.

Lemma filter_r_raises (p : A → Result bool) (l : list A) (e : Exn) :
  filter_r p l = Raise e → ∃ x, x ∈ l ∧ p x = Raise e.
Proof.
  induction l as [|y l IH]; cbn; [discriminate|].
  destruct (p y) as [b|e'] eqn:Hy; cbn.
  - destruct (filter_r p l) as [r|e'']; cbn; [discriminate|].
    intros [= ->]. destruct IH as (x & Hx & Hp); [done|].
    exists x. split; [by right | done].
  - intros [= ->]. exists y. split; [left | done].
Qed.

Lemma pset_filter_r_Ok (p : A → Result bool) (s r : gset A) :
  pset_filter_r p s = Ok r →
  (∀ x, x ∈ s → ∃ b, p x = Ok b) ∧ (∀ x, x ∈ r ↔ x ∈ s ∧ p x = Ok true).
Proof.
  unfold pset_filter_r. intros (l & Hl & [= <-])%bind_Ok.
  destruct (filter_r_Ok _ _ _ Hl) as [H1 H2]. split.
  - intros x Hx. apply H1. by apply elem_of_elements.
  - intros x. rewrite elem_of_list_to_set, H2, elem_of_elements. done.
Qed.

Lemma pset_filter_r_total (p : A → Result bool) (s : gset A) :
  (∀ x, x ∈ s → ∃ b, p x = Ok b) → ∃ r, pset_filter_r p s = Ok r.
Proof.
  intros Hall. unfold pset_filter_r.
  destruct (filter_r_total p (elements s)) as [l ->].
  - intros x Hx. apply Hall. by apply elem_of_elements.
  - cbn. by eexists.
Qed.

Lemma pset_filter_r_raises (p : A → Result bool) (s : gset A) (e : Exn) :
  pset_filter_r p s = Raise e → ∃ x, x ∈ s ∧ p x = Raise e.
Proof.
  unfold pset_filter_r.
  destruct (filter_r p (elements s)) as [l|e'] eqn:Hl; cbn; [discriminate|].
  intros [= ->]. destruct (filter_r_raises _ _ _ Hl) as (x & Hx & Hp).
  exists x. split; [by apply elem_of_elements | done].
Qed.

(** A pure predicate: the fallible filter is the pure one. *)
Lemma pset_filter_r_pure (p : A → bool) (s : gset A) :
  pset_filter_r (λ x, Ok (p x)) s = Ok (pset_filter p s).
Proof.
  assert (Htot : ∀ x, x ∈ s → ∃ b, (λ y, Ok (p y)) x = Ok b) by (intros x _; by eexists).
  destruct (pset_filter_r_total _ s Htot) as [r Hr].
  rewrite Hr. f_equal. apply set_eq. intros x.
  destruct (pset_filter_r_Ok _ _ _ Hr) as [_ Hiff].
  rewrite Hiff, elem_of_pset_filter. split.
  - by intros [Hx [= ->]].
  - intros [-> Hx]. done.
Qed.
End GenericFacts.

Lemma tuple_lt_spec (a b : Z * Z) :
  tuple_lt a b = true ↔ a.1 < b.1 ∨ (a.1 = b.1 ∧ a.2 < b.2).
Proof. unfold tuple_lt. destruct a, b; cbn. lia. Qed.

(** ** The clock *)

(** C9. For a time [t >= 0] and a configuration with [delta > 0],
    [get_slot_from_time] returns [t // (4 * delta)], and [get_phase_from_time]
    returns the phase whose quarter of the slot holds [t % (4 * delta)]:
    PROPOSE on [[0, delta)], VOTE on [[delta, 2 delta)], CONFIRM on
    [[2 delta, 3 delta)] and MERGE on [[3 delta, 4 delta)]. Both results
    depend on [t] and the configuration only. *)
Theorem clock_slot_and_phase (t : Z) (node_state : RLMD.NodeState) :
  let d := delta (configuration (RLMD.common node_state)) in
  0 ≤ t → 0 < d →
  RLMD.get_slot_from_time t node_state = Ok (t / (4 * d)) ∧
  ∃ phase, RLMD.get_phase_from_time t node_state = Ok phase ∧
    (phase = PROPOSE ↔ 0 ≤ t mod (4 * d) < d) ∧
    (phase = VOTE ↔ d ≤ t mod (4 * d) < 2 * d) ∧
    (phase = CONFIRM ↔ 2 * d ≤ t mod (4 * d) < 3 * d) ∧
    (phase = MERGE ↔ 3 * d ≤ t mod (4 * d) < 4 * d).
Proof.
  intros d Ht Hd.
  unfold RLMD.get_slot_from_time, RLMD.get_phase_from_time. fold d.
  assert (Hrange : 0 ≤ t mod (4 * d) < 4 * d) by (apply Z.mod_pos_bound; lia).
  destruct (Z.eqb_spec (4 * d) 0) as [|_]; [lia|].
  split; [done|].
  destruct (Z.leb_spec (3 * d) (t mod (4 * d)));
    [|destruct (Z.leb_spec (2 * d) (t mod (4 * d)));
      [|destruct (Z.leb_spec d (t mod (4 * d)))]];
    eexists; (split; [reflexivity|]);
    repeat split; first [discriminate | lia | intros; exfalso; lia | done].
Qed.

Lemma clock_slot_and_phase_witness :
  RLMD.get_slot_from_time 7 (clock_state 1) = Ok (7 / (4 * 1)) ∧
  ∃ phase, RLMD.get_phase_from_time 7 (clock_state 1) = Ok phase ∧
    (phase = PROPOSE ↔ 0 ≤ 7 mod (4 * 1) < 1) ∧
    (phase = VOTE ↔ 1 ≤ 7 mod (4 * 1) < 2 * 1) ∧
    (phase = CONFIRM ↔ 2 * 1 ≤ 7 mod (4 * 1) < 3 * 1) ∧
    (phase = MERGE ↔ 3 * 1 ≤ 7 mod (4 * 1) < 4 * 1).
Proof. apply (clock_slot_and_phase 7 (clock_state 1)); cbn; lia. Defined.

(** The clock of [ga_based/helpers.py] is the same function of [time] and
    [delta]. *)
Lemma ga_clock_agrees (t : Z) (st : RLMD.NodeState) (st' : GaBased.NodeState) :
  delta (configuration (RLMD.common st)) = delta (GaBased.configuration st') →
  GaBased.get_slot_from_time t st' = RLMD.get_slot_from_time t st ∧
  GaBased.get_phase_from_time t st' = RLMD.get_phase_from_time t st.
Proof.
  intros Hd.
  unfold GaBased.get_slot_from_time, GaBased.get_phase_from_time,
    RLMD.get_slot_from_time, RLMD.get_phase_from_time.
  by rewrite Hd.
Qed.

(** ** The k-deep slot *)

Lemma get_k_deep_slot_returns_nothing (s : Z) : PySpec.get_k_deep_slot s = None.
Proof. reflexivity. Qed.

(** C10. The claim asks [get_k_deep_slot(s)] to be [max(0, s - k)]; at slot
    100 that is 36, while the function, which computes this number into a
    local variable and never returns it, evaluates to [None]. *)
Theorem get_k_deep_slot_at_100 :
  PySpec.get_k_deep_slot 100 = None ∧
  Z.max 0 (100 - PySpec.K_DEEP_CONFIRMATION_PARAMETER) = 36.
Proof. split; reflexivity. Qed.

(** ** Vote expiry *)

(** The filter keeps the votes on which [is_GHOST_vote_expired] holds. *)
Lemma elem_of_filter_out_expired_GHOST_votes (votes : gset SignedVoteMessage)
    (node_state : RLMD.NodeState) (v : SignedVoteMessage) :
  v ∈ RLMD.filter_out_expired_GHOST_votes votes node_state ↔
  v ∈ votes ∧
  vm_slot (message v) + eta (configuration (RLMD.common node_state))
    < current_slot (RLMD.common node_state).
Proof.
  unfold RLMD.filter_out_expired_GHOST_votes, RLMD.is_GHOST_vote_expired.
  rewrite elem_of_pset_filter, Z.ltb_lt. tauto.
Qed.

Lemma ga_filter_out_expired_head_votes (votes : gset SignedVoteMessage)
    (node_state : GaBased.NodeState) :
  delta (GaBased.configuration node_state) ≠ 0 →
  ∃ r, GaBased.filter_out_expired_head_votes votes node_state = Ok r ∧
    ∀ v, v ∈ r ↔
      v ∈ votes ∧
      vm_slot (message v) + eta (GaBased.configuration node_state)
        < GaBased.time node_state / (4 * delta (GaBased.configuration node_state)).
Proof.
  intros Hd.
  assert (Hexp : ∀ v, GaBased.is_head_vote_expired v node_state =
    Ok (vm_slot (message v) + eta (GaBased.configuration node_state)
          <? GaBased.time node_state / (4 * delta (GaBased.configuration node_state)))).
  { intros v. unfold GaBased.is_head_vote_expired, GaBased.get_slot,
      GaBased.get_slot_from_time.
    destruct (Z.eqb_spec (4 * delta (GaBased.configuration node_state)) 0); [lia|done]. }
  unfold GaBased.filter_out_expired_head_votes.
  destruct (pset_filter_r_total
              (λ vote, GaBased.is_head_vote_expired vote node_state) votes) as [r Hr].
  { intros v _. rewrite Hexp. by eexists. }
  exists r. split; [done|]. intros v.
  destruct (pset_filter_r_Ok _ _ _ Hr) as [_ Hiff].
  rewrite Hiff, Hexp. split.
  - intros [Hv [= Hlt]]. split; [done|]. by apply Z.ltb_lt.
  - intros [Hv Hlt]. split; [done|]. f_equal. by apply Z.ltb_lt.
Qed.

(** C1. With [eta = 3] at slot 10, a vote of slot 1 is expired
    ([1 + 3 < 10]) and a vote of slot 9 is not; the claim asks the filter to
    return the vote of slot 9 alone, and [filter_out_expired_GHOST_votes]
    returns the vote of slot 1 alone. *)
Theorem filter_out_expired_GHOST_votes_keeps_expired :
  RLMD.filter_out_expired_GHOST_votes {[ expiry_vote 1; expiry_vote 9 ]} expiry_state
  = {[ expiry_vote 1 ]}.
Proof.
  apply set_eq. intros v.
  rewrite elem_of_filter_out_expired_GHOST_votes, elem_of_union, !elem_of_singleton.
  cbn. split.
  - intros [[->| ->] Hlt]; [done | cbn in Hlt; lia].
  - intros ->. split; [by left | cbn; lia].
Qed.

(** ** View merge *)

Lemma elem_of_get_votes_included_in_blocks (blocks : gset Block) (v : SignedVoteMessage) :
  v ∈ get_votes_included_in_blocks blocks ↔ ∃ b, b ∈ blocks ∧ v ∈ votes b.
Proof.
  unfold get_votes_included_in_blocks, pset_map.
  rewrite elem_of_union_list. split.
  - intros (X & (b & -> & Hb)%list_elem_of_fmap & Hv).
    exists b. by rewrite <- elem_of_elements.
  - intros (b & Hb & Hv). exists (votes b). split; [|done].
    apply list_elem_of_fmap. exists b. by rewrite elem_of_elements.
Qed.

Lemma lookup_pmap_merge {V : Type} (a b : gmap Hash V) (h : Hash) :
  pmap_merge a b !! h = match b !! h with Some x => Some x | None => a !! h end.
Proof.
  unfold pmap_merge. rewrite lookup_union.
  destruct (b !! h), (a !! h); done.
Qed.

(** In [rlmd/helpers.py] the two updates of [common] compute the view the
    specification asks for: the blocks of the view and of the buffer, the
    votes of the view, of the buffer and of the blocks of the merged view,
    and nothing else of the common state changes. *)
Lemma rlmd_merged_common_spec (node_state : RLMD.NodeState) :
  let c := RLMD.common node_state in
  let c' := RLMD.merged_common node_state in
  view_blocks c' = pmap_merge (view_blocks c) (RLMD.buffer_blocks node_state) ∧
  dom (view_blocks c') = dom (view_blocks c) ∪ dom (RLMD.buffer_blocks node_state) ∧
  (∀ v, v ∈ view_votes c' ↔
        v ∈ view_votes c ∨ v ∈ RLMD.buffer_votes node_state ∨
        ∃ h b, view_blocks c' !! h = Some b ∧ v ∈ votes b) ∧
  configuration c' = configuration c ∧
  identity c' = identity c ∧
  current_slot c' = current_slot c ∧
  chava c' = chava c.
Proof.
  cbn. repeat split; try done.
  - unfold pmap_merge. rewrite dom_union_L. set_solver.
  - rewrite !elem_of_union, elem_of_get_votes_included_in_blocks.
    intros [[?|?]|(b & Hb & Hv)]; [tauto | tauto |].
    right; right. unfold get_all_blocks in Hb. cbn in Hb.
    apply elem_of_map_img in Hb as [h Hh]. eauto.
  - rewrite !elem_of_union, elem_of_get_votes_included_in_blocks.
    intros [?|[?|(h & b & Hh & Hv)]]; [tauto | tauto |].
    right. exists b. split; [|done].
    unfold get_all_blocks. cbn. apply elem_of_map_img. eauto.
Qed.

(** The merged view cannot be stored: [common] is not a declared field of
    the [NodeState] record, and the first update raises. *)
Lemma rlmd_execute_view_merge_raises (node_state : RLMD.NodeState) :
  RLMD.execute_view_merge node_state = Raise AttributeError.
Proof. reflexivity. Qed.

Lemma ga_execute_view_merge_raises (node_state : GaBased.NodeState) :
  GaBased.execute_view_merge node_state = Raise AttributeError.
Proof. by destruct node_state. Qed.

(** C6. In [ga_based/helpers.py] the second and third updates of
    [execute_view_merge] name the fields [view_vote] and [buffer_vote], which
    the node state does not have (its vote view is [votes], its vote buffer
    [buffer_votes]): on a state that buffers one vote the call raises, where
    the claim asks for a state whose vote view holds that vote and whose
    buffers are empty. *)
Theorem ga_execute_view_merge_at_buffered_vote :
  GaBased.execute_view_merge ga_merge_state = Raise AttributeError ∧
  expiry_vote 0 ∈ GaBased.buffer_votes ga_merge_state ∧
  expiry_vote 0 ∉ GaBased.votes ga_merge_state.
Proof.
  split; [reflexivity|]. cbn. split; set_solver.
Qed.

(** ** Slashing *)

Section Slashing.
Context {stubs : Stubs}.

Lemma are_equivocating_votes_spec (v1 v2 : SignedVoteMessage) :
  are_equivocating_votes v1 v2 = true ↔
  verify_vote_signature v1 = true ∧ verify_vote_signature v2 = true ∧ equivocation v1 v2.
Proof.
  unfold are_equivocating_votes, equivocation.
  rewrite !andb_true_iff, !bool_decide_eq_true, Z.eqb_eq. tauto.
Qed.

Lemma does_first_vote_surround_second_vote_spec (v1 v2 : SignedVoteMessage) :
  does_first_vote_surround_second_vote v1 v2 = true ↔
  verify_vote_signature v1 = true ∧ verify_vote_signature v2 = true ∧ surrounds v1 v2.
Proof.
  unfold does_first_vote_surround_second_vote, surrounds, lex_lt.
  rewrite !andb_true_iff, !bool_decide_eq_true, tuple_lt_spec, Z.ltb_lt. tauto.
Qed.

Lemma is_slashable_offence_spec (v1 v2 : SignedVoteMessage) :
  is_slashable_offence v1 v2 = true ↔
  verify_vote_signature v1 = true ∧ verify_vote_signature v2 = true ∧
  slashable_offence_spec v1 v2.
Proof.
  unfold is_slashable_offence, slashable_offence_spec.
  rewrite !orb_true_iff, are_equivocating_votes_spec,
    !does_first_vote_surround_second_vote_spec.
  tauto.
Qed.

(** C8, amended. A node is reported by [get_slashabe_nodes] exactly when
    the view holds two votes, the first of them sent by the node, that both
    carry a valid signature and form an equivocation or a surround (in
    either direction). *)
Theorem get_slashabe_nodes_spec (vote_view : gset SignedVoteMessage) (n : NodeIdentity) :
  n ∈ get_slashabe_nodes vote_view ↔
  ∃ v1 v2, v1 ∈ vote_view ∧ v2 ∈ vote_view ∧ sender v1 = n ∧
           verify_vote_signature v1 = true ∧ verify_vote_signature v2 = true ∧
           slashable_offence_spec v1 v2.
Proof.
  unfold get_slashabe_nodes, pset_map_to_pset, pset_is_empty.
  rewrite elem_of_map. split.
  - intros (v1 & -> & [Hne Hv1]%elem_of_pset_filter).
    apply negb_true_iff, bool_decide_eq_false in Hne.
    apply set_choose_L in Hne as [v2 [Hoff Hv2]%elem_of_pset_filter].
    apply is_slashable_offence_spec in Hoff as (S1 & S2 & Hoff).
    exists v1, v2. tauto.
  - intros (v1 & v2 & Hv1 & Hv2 & <- & S1 & S2 & Hoff).
    exists v1. split; [done|].
    apply elem_of_pset_filter. split; [|done].
    apply negb_true_iff, bool_decide_eq_false.
    assert (v2 ∈ pset_filter (λ vote2, is_slashable_offence v1 vote2) vote_view)
      as Hin; [|set_solver].
    apply elem_of_pset_filter. split; [|done].
    apply is_slashable_offence_spec. tauto.
Qed.
End Slashing.

(** C8 as stated fails: two distinct votes of "v1" for the same target slot
    are an equivocation, yet "v1" is not reported when their signatures do
    not verify. *)
Lemma get_slashabe_nodes_needs_signatures :
  ¬ (∀ (vote_view : gset SignedVoteMessage) (n : NodeIdentity),
       n ∈ @get_slashabe_nodes rejecting_stubs vote_view ↔
       ∃ v1 v2, v1 ∈ vote_view ∧ v2 ∈ vote_view ∧ sender v1 = n ∧
                slashable_offence_spec v1 v2).
Proof.
  intros Hclaim.
  assert ("v1" ∈ @get_slashabe_nodes rejecting_stubs {[ double_vote "a"; double_vote "b" ]})
    as Hin.
  { apply Hclaim. exists (double_vote "a"), (double_vote "b").
    split; [set_solver|]. split; [set_solver|]. split; [done|].
    left. split; [done|]. split; [discriminate | done]. }
  assert (@get_slashabe_nodes rejecting_stubs {[ double_vote "a"; double_vote "b" ]} = ∅)
    as Hempty by (vm_compute; reflexivity).
  rewrite Hempty in Hin. exact (not_elem_of_empty _ Hin).
Qed.

(** ** Vote validation on unknown hashes *)

Section Validation.
Context {stubs : Stubs}.

Lemma get_block_from_hash_absent (h : Hash) (node_state : CommonNodeState) :
  has_block_hash h node_state = false ↔ get_block_from_hash h node_state = Raise KeyError.
Proof.
  unfold has_block_hash, get_block_from_hash.
  rewrite bool_decide_eq_false.
  destruct (view_blocks node_state !! h) as [b|].
  - split; [|discriminate]. intros Hno. destruct Hno. by eexists.
  - split; [done|]. intros _ [b Hb]. discriminate.
Qed.

(** A signed vote whose head is not in the block view breaches the
    precondition of [get_block_from_hash]: the lookup comes before any test
    of [has_block_hash]. *)
Lemma valid_FFG_vote_unknown_head (fuel : nat) (vote : SignedVoteMessage)
    (node_state : CommonNodeState) :
  verify_vote_signature vote = true →
  has_block_hash (head_hash (message vote)) node_state = false →
  valid_FFG_vote fuel vote node_state = Raise KeyError.
Proof.
  intros Hsig Hhead%get_block_from_hash_absent.
  unfold valid_FFG_vote. rewrite Hsig, Hhead. reflexivity.
Qed.

(** The same for the source of the FFG link: the ancestor test reads the
    source block before [has_block_hash] is asked about it. *)
Lemma valid_FFG_vote_unknown_source (fuel : nat) (vote : SignedVoteMessage)
    (node_state : CommonNodeState) (hb : Block) :
  verify_vote_signature vote = true →
  get_block_from_hash (head_hash (message vote)) node_state = Ok hb →
  is_validator (sender vote)
    (get_validator_set_for_slot hb (vm_slot (message vote)) node_state) = true →
  has_block_hash (cp_block_hash (ffg_source (message vote))) node_state = false →
  valid_FFG_vote fuel vote node_state = Raise KeyError.
Proof.
  intros Hsig Hhead Hval Hsrc%get_block_from_hash_absent.
  unfold valid_FFG_vote, is_ancestor_descendant_of_hashes.
  rewrite Hsig, Hhead. cbn. rewrite Hval. cbn. rewrite Hsrc. reflexivity.
Qed.

Lemma rlmd_valid_vote_unknown_head (fuel : nat) (vote : SignedVoteMessage)
    (node_state : RLMD.NodeState) :
  verify_vote_signature vote = true →
  has_block_hash (head_hash (message vote)) (RLMD.common node_state) = false →
  RLMD.valid_vote fuel vote node_state = Raise KeyError.
Proof.
  intros Hsig Hhead. unfold RLMD.valid_vote.
  rewrite Hsig, (valid_FFG_vote_unknown_head _ _ _ Hsig Hhead). reflexivity.
Qed.
End Validation.

(** C7. The vote [unknown_head_vote] is signed and names the head "x", which
    the view (genesis only) does not hold. The claim asks [valid_FFG_vote] to
    answer [False] without looking "x" up; the function looks it up first and
    raises, whatever the fuel. *)
Theorem valid_FFG_vote_breaches_precondition (fuel : nat) :
  @has_block_hash (head_hash (message unknown_head_vote)) genesis_only_state = false ∧
  @get_block_from_hash (head_hash (message unknown_head_vote)) genesis_only_state
    = Raise KeyError ∧
  @valid_FFG_vote accepting_stubs fuel unknown_head_vote genesis_only_state
    = Raise KeyError.
Proof.
  split; [reflexivity|]. split; [reflexivity|].
  by apply (@valid_FFG_vote_unknown_head accepting_stubs).
Qed.

(** ** Finalization *)

Section Finalization.
Context {stubs : Stubs}.

Lemma supermajority_spec (w tot : Z) : supermajority w tot = true ↔ tot * 2 ≤ w * 3.
Proof. unfold supermajority. by rewrite bool_decide_eq_true. Qed.

Lemma is_FFG_vote_linking_true (fuel : nat) (v : SignedVoteMessage) (C : Checkpoint)
    (node_state : CommonNodeState) :
  is_FFG_vote_linking_to_a_checkpoint_in_next_slot fuel v C node_state = Ok true ↔
  valid_FFG_vote fuel v node_state = Ok true ∧
  ffg_source (message v) = C ∧
  chkp_slot (ffg_target (message v)) = chkp_slot C + 1.
Proof.
  unfold is_FFG_vote_linking_to_a_checkpoint_in_next_slot.
  rewrite !andM_true. split.
  - intros (Hv & [= Hs] & [= Ht]).
    apply bool_decide_eq_true in Hs. apply Z.eqb_eq in Ht. done.
  - intros (Hv & Hs & Ht). split; [done|]. split; f_equal.
    + by apply bool_decide_eq_true.
    + by apply Z.eqb_eq.
Qed.

Lemma is_FFG_vote_linking_evaluates (fuel : nat) (v : SignedVoteMessage) (C : Checkpoint)
    (node_state : CommonNodeState) :
  (∃ r, is_FFG_vote_linking_to_a_checkpoint_in_next_slot fuel v C node_state = Ok r) ↔
  (∃ r, valid_FFG_vote fuel v node_state = Ok r).
Proof.
  unfold is_FFG_vote_linking_to_a_checkpoint_in_next_slot, andM.
  destruct (valid_FFG_vote fuel v node_state) as [[]|e]; cbn.
  - destruct (bool_decide _); cbn; split; intros _; eauto.
  - split; intros _; eauto.
  - split; intros [r Hr]; discriminate.
Qed.

(** C3, amended. [is_finalized_checkpoint(C)] returns [True] exactly when
    [C] is justified, the validity of every vote in view can be evaluated,
    and the senders of the valid votes in view with [ffg_source == C] and
    [ffg_target.chkp_slot == C.chkp_slot + 1] -- to whatever next-slot
    targets, justified or not -- carry a supermajority of the validator set
    of [C]. *)
Theorem is_finalized_checkpoint_spec (fuel : nat) (C : Checkpoint)
    (node_state : CommonNodeState) :
  is_finalized_checkpoint fuel C node_state = Ok true ↔
  is_justified_checkpoint fuel C node_state = Ok true ∧
  (∀ v, v ∈ view_votes node_state → ∃ r, valid_FFG_vote fuel v node_state = Ok r) ∧
  ∃ b S,
    get_block_from_hash (cp_block_hash C) node_state = Ok b ∧
    next_slot_linkers fuel C node_state S ∧
    let validatorBalances := get_validator_set_for_slot b (block_slot C) node_state in
    validator_set_weight (dom validatorBalances) validatorBalances * 2
      ≤ validator_set_weight S validatorBalances * 3.
Proof.
  unfold is_finalized_checkpoint,
    get_validators_in_FFG_votes_linking_to_a_checkpoint_in_next_slot,
    filter_out_FFG_vote_not_linking_to_a_checkpoint_in_next_slot.
  split.
  - intros (j & Hj & Hrest)%bind_Ok.
    destruct j; cbn in Hrest; [|discriminate].
    apply bind_Ok in Hrest as (b & Hb & Hrest).
    apply bind_Ok in Hrest as (S & HS & [= Hsuper]).
    apply bind_Ok in HS as (vs & Hvs & [= <-]).
    destruct (pset_filter_r_Ok _ _ _ Hvs) as [Hall Hmem].
    split; [done|]. split.
    { intros v Hv. apply is_FFG_vote_linking_evaluates with (C := C). auto. }
    exists b, (pset_map_to_pset sender vs). split; [done|]. split.
    + intros n. unfold pset_map_to_pset. rewrite elem_of_map. split.
      * intros (v & -> & [Hv Hlink]%Hmem).
        apply is_FFG_vote_linking_true in Hlink. exists v. tauto.
      * intros (v & Hv & <- & Hlink). exists v. split; [done|].
        apply Hmem. split; [done|]. by apply is_FFG_vote_linking_true.
    + by apply supermajority_spec.
  - intros (Hj & Hall & b & S & Hb & HS & Hsuper).
    rewrite Hj. cbn. rewrite Hb. cbn.
    destruct (pset_filter_r_total
                (λ vote, is_FFG_vote_linking_to_a_checkpoint_in_next_slot
                           fuel vote C node_state) (view_votes node_state)) as [vs Hvs].
    { intros v Hv. apply is_FFG_vote_linking_evaluates. auto. }
    rewrite Hvs. cbn. do 2 f_equal.
    destruct (pset_filter_r_Ok _ _ _ Hvs) as [_ Hmem].
    assert (pset_map_to_pset sender vs = S) as ->.
    { apply set_eq. intros n. unfold pset_map_to_pset.
      rewrite elem_of_map, (HS n). split.
      - intros (v & -> & [Hv Hlink]%Hmem).
        apply is_FFG_vote_linking_true in Hlink. exists v. tauto.
      - intros (v & Hv & <- & Hlink). exists v. split; [done|].
        apply Hmem. split; [done|]. by apply is_FFG_vote_linking_true. }
    by apply supermajority_spec.
Qed.
End Finalization.

Lemma split_state_votes_valid :
  @valid_FFG_vote accepting_stubs 10 link_vote_a split_state = Ok true ∧
  @valid_FFG_vote accepting_stubs 10 link_vote_g split_state = Ok true.
Proof. split; vm_compute; reflexivity. Qed.

(** C3 as stated fails. In [split_state] "v1" links the genesis checkpoint to
    ("a", 1, 1) and "v2" links it to ("g", 1, 0); each validator holds one of
    three units of stake. The code adds the two senders up (2 * 3 >= 3 * 2)
    and reports the genesis checkpoint finalized, although no single
    next-slot checkpoint is linked by more than one unit. *)
Lemma is_finalized_checkpoint_combines_targets :
  @is_finalized_checkpoint accepting_stubs 10 gcp0 split_state = Ok true ∧
  ¬ @finalized_by_single_link accepting_stubs 10 gcp0 split_state.
Proof.
  split; [vm_compute; reflexivity|].
  intros (_ & C' & b & S & _ & _ & Hb & HS & Hw).
  assert (get_block_from_hash (cp_block_hash gcp0) split_state = Ok G0) as HG
    by reflexivity.
  rewrite HG in Hb. injection Hb as <-.
  destruct split_state_votes_valid as [Hva Hvb].
  assert (S = {[ "v1" ]} ∨ S = {[ "v2" ]} ∨ S = ∅) as HScases.
  { destruct (decide (C' = target_a)) as [->|Hna];
      [|destruct (decide (C' = target_g)) as [->|Hnb]].
    - left. apply set_eq. intros n. rewrite (HS n), elem_of_singleton. split.
      + intros (v & Hv & <- & _ & _ & Ht).
        apply elem_of_union in Hv as [->%elem_of_singleton| ->%elem_of_singleton];
          [done | discriminate Ht].
      + intros ->. exists link_vote_a. split; [set_solver|].
        split; [reflexivity|]. split; [exact Hva|]. split; reflexivity.
    - right; left. apply set_eq. intros n. rewrite (HS n), elem_of_singleton. split.
      + intros (v & Hv & <- & _ & _ & Ht).
        apply elem_of_union in Hv as [->%elem_of_singleton| ->%elem_of_singleton];
          [discriminate Ht | done].
      + intros ->. exists link_vote_g. split; [set_solver|].
        split; [reflexivity|]. split; [exact Hvb|]. split; reflexivity.
    - right; right. apply set_eq. intros n. rewrite (HS n). split.
      + intros (v & Hv & _ & _ & _ & Ht).
        apply elem_of_union in Hv as [->%elem_of_singleton| ->%elem_of_singleton];
          cbn in Ht; congruence.
      + intros Hn. by apply not_elem_of_empty in Hn. }
  destruct HScases as [-> | [-> | ->]]; vm_compute in Hw; by apply Hw.
Qed.

(** ** Fork choice *)

Lemma keyed_Ok {A K : Type} (key : A → Result K) (l : list A) (ws : list (A * K)) :
  RLMD.keyed key l = Ok ws → Forall2 (λ x p, p.1 = x ∧ key x = Ok p.2) l ws.
Proof.
  revert ws. induction l as [|x l IH]; intros ws; cbn.
  - intros [= <-]. constructor.
  - intros (w & Hw & (r & Hr & [= <-])%bind_Ok)%bind_Ok.
    constructor; [done | by apply IH].
Qed.

Lemma foldl_heavier (l : list (Block * Z)) (x : Block * Z) :
  let best := foldl (λ best y, if best.2 <? y.2 then y else best) x l in
  (best = x ∨ best ∈ l) ∧ x.2 ≤ best.2 ∧ ∀ y, y ∈ l → y.2 ≤ best.2.
Proof.
  revert x. induction l as [|y l IH]; intros x; cbn.
  - split; [by left|]. split; [lia|]. intros y Hy. by apply elem_of_nil in Hy.
  - destruct (IH (if x.2 <? y.2 then y else x)) as (Hin & Hge & Hall).
    destruct (Z.ltb_spec x.2 y.2) as [Hlt|Hle].
    + split; [right; destruct Hin as [->|?]; [left | by right]|].
      split; [lia|]. intros z [->|Hz]%elem_of_cons; [done | by apply Hall].
    + split; [destruct Hin as [->|?]; [by left | right; by right]|].
      split; [done|]. intros z [->|Hz]%elem_of_cons; [lia | by apply Hall].
Qed.

Lemma max_by_weight_spec (ws : list (Block * Z)) (best : Block) :
  RLMD.max_by_weight ws = Some best →
  ∃ w, (best, w) ∈ ws ∧ ∀ y, y ∈ ws → y.2 ≤ w.
Proof.
  destruct ws as [|x l]; cbn; [discriminate|]. intros [= <-].
  destruct (foldl_heavier l x) as (Hin & Hge & Hall).
  set (b := foldl _ x l) in *. exists b.2. split.
  - replace (b.1, b.2) with b by (by destruct b).
    destruct Hin as [->|?]; [left | by right].
  - intros y [->|Hy]%elem_of_cons; [done | by apply Hall].
Qed.

Lemma keyed_total {A K : Type} (key : A → Result K) (l : list A) :
  (∀ x, x ∈ l → ∃ w, key x = Ok w) → ∃ ws, RLMD.keyed key l = Ok ws.
Proof.
  induction l as [|x l IH]; intros Hall; cbn; [by eexists|].
  destruct (Hall x) as [w ->]; [left|]. rewrite bind_ret.
  destruct IH as [ws ->]; [intros y Hy; apply Hall; by right|].
  rewrite bind_ret. by eexists.
Qed.

Section ForkChoice.
Context {stubs : Stubs}.

(** The walk stops at blocks without children only. *)
Lemma find_head_from_stops_at_leaf (fuel : nat) (block head : Block)
    (votes : gset SignedVoteMessage) (node_state : RLMD.NodeState)
    (validatorBalances : ValidatorBalances) :
  RLMD.find_head_from fuel block votes node_state validatorBalances = Ok head →
  size (RLMD.get_children head node_state) = 0%nat.
Proof.
  revert block. induction fuel as [|fuel IH]; intros block; [discriminate|].
  cbn [RLMD.find_head_from].
  destruct (Nat.eqb_spec (size (RLMD.get_children block node_state)) 0) as [Hz|Hnz].
  - by intros [= <-].
  - intros (ws & Hws & Hrest)%bind_Ok.
    destruct (RLMD.max_by_weight ws) as [best|]; [|discriminate].
    by apply IH in Hrest.
Qed.

(** C2, amended. One step of [find_head_from] in [rlmd/helpers.py], the
    GHOST weights of the children being computed: on a block without child
    in view the call returns the block; on a block with children it
    continues from a child whose GHOST weight no other child exceeds,
    without comparing that weight to the total vote weight. Whatever block
    the call returns, it is the block itself exactly when the block has no
    child in view. *)
Theorem rlmd_find_head_from_step (fuel : nat) (block : Block)
    (votes : gset SignedVoteMessage) (node_state : RLMD.NodeState)
    (validatorBalances : ValidatorBalances) :
  (∀ c, c ∈ RLMD.get_children block node_state →
        ∃ w, RLMD.get_GHOST_weight fuel c votes node_state validatorBalances = Ok w) →
  ((RLMD.get_children block node_state = ∅ ∧
    RLMD.find_head_from (S fuel) block votes node_state validatorBalances = Ok block) ∨
   (∃ child w,
      child ∈ RLMD.get_children block node_state ∧
      RLMD.get_GHOST_weight fuel child votes node_state validatorBalances = Ok w ∧
      (∀ c, c ∈ RLMD.get_children block node_state →
            ∃ w', RLMD.get_GHOST_weight fuel c votes node_state validatorBalances = Ok w'
                  ∧ w' ≤ w) ∧
      RLMD.find_head_from (S fuel) block votes node_state validatorBalances
      = RLMD.find_head_from fuel child votes node_state validatorBalances)) ∧
  (∀ head,
     RLMD.find_head_from (S fuel) block votes node_state validatorBalances = Ok head →
     (head = block ↔ RLMD.get_children block node_state = ∅)).
Proof.
  intros Hweights.
  assert (Hempty : RLMD.get_children block node_state = ∅ ↔
                   size (RLMD.get_children block node_state) = 0%nat).
  { split; [intros ->; apply size_empty|].
    intros Hz. by apply size_empty_inv, leibniz_equiv in Hz. }
  split.
  - cbn [RLMD.find_head_from].
    destruct (Nat.eqb_spec (size (RLMD.get_children block node_state)) 0) as [Hz|Hnz].
    { left. split; [by apply Hempty | done]. }
    right.
    destruct (keyed_total
                (λ child, RLMD.get_GHOST_weight fuel child votes node_state
                            validatorBalances)
                (elements (RLMD.get_children block node_state))) as [ws Hws].
    { intros c Hc. apply Hweights. by apply elem_of_elements. }
    rewrite Hws, bind_ret.
    pose proof (keyed_Ok _ _ _ Hws) as Hpairs.
    destruct (RLMD.max_by_weight ws) as [best|] eqn:Hbest.
    + apply max_by_weight_spec in Hbest as (w & Hin & Hmax).
      assert (Hpair : ∀ p, p ∈ ws →
                p.1 ∈ RLMD.get_children block node_state ∧
                RLMD.get_GHOST_weight fuel p.1 votes node_state validatorBalances
                  = Ok p.2).
      { intros p (i & Hi)%list_elem_of_lookup.
        destruct (Forall2_lookup_r _ _ _ _ _ Hpairs Hi) as (c & Hc & <- & Hk).
        split; [|done]. apply elem_of_elements. by eapply list_elem_of_lookup_2. }
      destruct (Hpair _ Hin) as [Hchild Hweight]. cbn in Hchild, Hweight.
      exists best, w. split; [done|]. split; [done|]. split; [|done].
      intros c (i & Hi)%elem_of_elements%list_elem_of_lookup.
      destruct (Forall2_lookup_l _ _ _ _ _ Hpairs Hi) as (p & Hp & <- & Hk).
      exists p.2. split; [done|]. apply Hmax. by eapply list_elem_of_lookup_2.
    + exfalso. destruct ws as [|x ws]; [|discriminate Hbest].
      apply Forall2_nil_inv_r in Hpairs.
      apply Hnz. rewrite <- Hempty. apply elements_empty_inv in Hpairs.
      by apply leibniz_equiv.
  - intros head Hhead. split.
    + intros ->. apply Hempty. by eapply find_head_from_stops_at_leaf.
    + intros Hnone%Hempty. cbn [RLMD.find_head_from] in Hhead.
      rewrite Hnone in Hhead. cbn in Hhead. congruence.
Qed.
End ForkChoice.

Lemma rlmd_find_head_from_step_witness :
  ((@RLMD.get_children accepting_stubs G0 lonely_child_state = ∅ ∧
    @RLMD.find_head_from accepting_stubs 10 G0 head_votes lonely_child_state
      three_balances = Ok G0) ∨
   (∃ child w,
      child ∈ @RLMD.get_children accepting_stubs G0 lonely_child_state ∧
      RLMD.get_GHOST_weight 9 child head_votes lonely_child_state three_balances = Ok w ∧
      (∀ c, c ∈ @RLMD.get_children accepting_stubs G0 lonely_child_state →
            ∃ w', RLMD.get_GHOST_weight 9 c head_votes lonely_child_state three_balances
                    = Ok w' ∧ w' ≤ w) ∧
      @RLMD.find_head_from accepting_stubs 10 G0 head_votes lonely_child_state
        three_balances
      = @RLMD.find_head_from accepting_stubs 9 A1 head_votes lonely_child_state
          three_balances ∧
      child = A1)) ∧
  (∀ head,
     @RLMD.find_head_from accepting_stubs 10 G0 head_votes lonely_child_state
       three_balances = Ok head →
     (head = G0 ↔ @RLMD.get_children accepting_stubs G0 lonely_child_state = ∅)).
Proof.
  assert (Hchildren : @RLMD.get_children accepting_stubs G0 lonely_child_state
                      = {[ A1 ]}).
  { reflexivity. }
  destruct (@rlmd_find_head_from_step accepting_stubs 9 G0 head_votes
              lonely_child_state three_balances) as [Hstep Hexact].
  { intros c Hc. rewrite Hchildren in Hc.
    apply elem_of_singleton in Hc. subst c. exists 1. vm_compute. reflexivity. }
  split; [|exact Hexact].
  destruct Hstep as [Hnone|(child & w & Hchild & Hw & Hmax & Hwalk)].
  { left. exact Hnone. }
  right. exists child, w.
  pose proof Hchild as Hc. rewrite Hchildren in Hc.
  apply elem_of_singleton in Hc.
  split; [exact Hchild|]. split; [exact Hw|]. split; [exact Hmax|].
  split; [|exact Hc]. rewrite <- Hc. exact Hwalk.
Defined.

(** C2 as stated fails on [rlmd/helpers.py]. With no vote in view the only
    child of the genesis block has weight 0 of a total of 0, and [get_head]
    returns the child; with two of three votes for the genesis block itself
    and one for the child, the child has weight 1 of a total of 3 and
    [find_head_from] still moves to it. In both cases no child has
    strict-majority support and the claim asks for the genesis block. *)
Lemma rlmd_get_head_descends_without_majority :
  @RLMD.get_head accepting_stubs 10 lonely_child_state = Ok A1 ∧
  @RLMD.get_children accepting_stubs G0 lonely_child_state = {[ A1 ]} ∧
  RLMD.get_GHOST_weight 10 A1 ∅ lonely_child_state three_balances = Ok 0 ∧
  has_majority_support 0 (total_vote_weight ∅ three_balances) = false ∧
  @RLMD.find_head_from accepting_stubs 10 G0 head_votes lonely_child_state three_balances
    = Ok A1 ∧
  RLMD.get_GHOST_weight 10 A1 head_votes lonely_child_state three_balances = Ok 1 ∧
  total_vote_weight head_votes three_balances = 3 ∧
  has_majority_support 1 3 = false ∧
  A1 ≠ G0.
Proof.
  repeat split; try (vm_compute; reflexivity). discriminate.
Qed.

(** ** Fuel *)

Lemma fuel_le_refl {A : Type} (r : Result A) : fuel_le r r.
Proof. by right. Qed.

Lemma fuel_le_trans {A : Type} (r1 r2 r3 : Result A) :
  fuel_le r1 r2 → fuel_le r2 r3 → fuel_le r1 r3.
Proof. unfold fuel_le. intros [->| ->] [->| ->]; auto. Qed.

Lemma fuel_le_Ok {A : Type} (r r' : Result A) (a : A) :
  fuel_le r r' → r = Ok a → r' = Ok a.
Proof. intros [->| ->]; [discriminate | done]. Qed.

Lemma fuel_le_bind {A B : Type} (m m' : Result A) (f f' : A → Result B) :
  fuel_le m m' → (∀ a, fuel_le (f a) (f' a)) → fuel_le (m ≫= f) (m' ≫= f').
Proof.
  intros [->| ->] Hf; [by left|].
  destruct m as [a|e]; [apply Hf | by right].
Qed.

Lemma fuel_le_andM (a a' b b' : Result bool) :
  fuel_le a a' → fuel_le b b' → fuel_le (a <&&> b) (a' <&&> b').
Proof.
  intros Ha Hb. unfold andM. apply fuel_le_bind; [done|].
  intros []; [done | apply fuel_le_refl].
Qed.

Lemma fuel_le_filter_r {A : Type} `{Countable A} (p p' : A → Result bool) (l : list A) :
  (∀ x, fuel_le (p x) (p' x)) → fuel_le (filter_r p l) (filter_r p' l).
Proof.
  intros Hp. induction l as [|x l IH]; cbn; [apply fuel_le_refl|].
  apply fuel_le_bind; [apply Hp|]. intros b.
  apply fuel_le_bind; [apply IH|]. intros r. apply fuel_le_refl.
Qed.

Lemma fuel_le_pset_filter_r {A : Type} `{Countable A} (p p' : A → Result bool)
    (s : gset A) :
  (∀ x, fuel_le (p x) (p' x)) → fuel_le (pset_filter_r p s) (pset_filter_r p' s).
Proof.
  intros Hp. unfold pset_filter_r. apply fuel_le_bind.
  - by apply fuel_le_filter_r.
  - intros l. apply fuel_le_refl.
Qed.

Section FuelMonotone.
Context {stubs : Stubs}.

Lemma is_complete_chain_fuel_S (fuel : nat) (block : Block) (node_state : CommonNodeState) :
  fuel_le (is_complete_chain fuel block node_state)
          (is_complete_chain (S fuel) block node_state).
Proof.
  revert block. induction fuel as [|fuel IH]; intros block; [by left|].
  cbn [is_complete_chain].
  destruct (decide (block = genesis (configuration node_state))); [apply fuel_le_refl|].
  destruct (negb (has_parent block node_state)); [apply fuel_le_refl|].
  apply fuel_le_bind; [apply fuel_le_refl|]. intros p. apply IH.
Qed.

Lemma is_ancestor_descendant_relationship_fuel_S (fuel : nat) (a d : Block)
    (node_state : CommonNodeState) :
  fuel_le (is_ancestor_descendant_relationship fuel a d node_state)
          (is_ancestor_descendant_relationship (S fuel) a d node_state).
Proof.
  revert d. induction fuel as [|fuel IH]; intros d; [by left|].
  cbn [is_ancestor_descendant_relationship].
  destruct (decide (a = d)); [apply fuel_le_refl|].
  destruct (decide (d = genesis (configuration node_state))); [apply fuel_le_refl|].
  apply fuel_le_andM; [apply fuel_le_refl|].
  apply fuel_le_bind; [apply fuel_le_refl|]. intros p. apply IH.
Qed.

Lemma is_ancestor_descendant_of_hashes_fuel_S (fuel : nat) (a d : Hash)
    (node_state : CommonNodeState) :
  fuel_le (is_ancestor_descendant_of_hashes fuel a d node_state)
          (is_ancestor_descendant_of_hashes (S fuel) a d node_state).
Proof.
  unfold is_ancestor_descendant_of_hashes.
  apply fuel_le_bind; [apply fuel_le_refl|]. intros ba.
  apply fuel_le_bind; [apply fuel_le_refl|]. intros bd.
  apply is_ancestor_descendant_relationship_fuel_S.
Qed.

Lemma valid_FFG_vote_fuel_S (fuel : nat) (vote : SignedVoteMessage)
    (node_state : CommonNodeState) :
  fuel_le (valid_FFG_vote fuel vote node_state) (valid_FFG_vote (S fuel) vote node_state).
Proof.
  unfold valid_FFG_vote.
  repeat (apply fuel_le_andM;
          [first [apply fuel_le_refl | apply is_ancestor_descendant_of_hashes_fuel_S]|]).
  apply fuel_le_refl.
Qed.

Lemma is_FFG_vote_in_support_with_fuel_S (J J' : Checkpoint → Result bool) (fuel : nat)
    (vote : SignedVoteMessage) (C : Checkpoint) (node_state : CommonNodeState) :
  (∀ c, fuel_le (J c) (J' c)) →
  fuel_le (is_FFG_vote_in_support_with J fuel vote C node_state)
          (is_FFG_vote_in_support_with J' (S fuel) vote C node_state).
Proof.
  intros HJ. unfold is_FFG_vote_in_support_with.
  apply fuel_le_andM; [apply valid_FFG_vote_fuel_S|].
  apply fuel_le_andM; [apply fuel_le_refl|].
  apply fuel_le_andM; [apply is_ancestor_descendant_of_hashes_fuel_S|].
  apply fuel_le_andM; [apply is_ancestor_descendant_of_hashes_fuel_S|].
  apply HJ.
Qed.

Lemma get_validators_in_FFG_support_with_fuel_S (J J' : Checkpoint → Result bool)
    (fuel : nat) (votes : gset SignedVoteMessage) (C : Checkpoint)
    (node_state : CommonNodeState) :
  (∀ c, fuel_le (J c) (J' c)) →
  fuel_le (get_validators_in_FFG_support_with J fuel votes C node_state)
          (get_validators_in_FFG_support_with J' (S fuel) votes C node_state).
Proof.
  intros HJ.
  unfold get_validators_in_FFG_support_with, filter_out_FFG_votes_not_in_support_with.
  apply fuel_le_bind; [|intros vs; apply fuel_le_refl].
  apply fuel_le_pset_filter_r. intros v.
  by apply is_FFG_vote_in_support_with_fuel_S.
Qed.

Lemma is_justified_checkpoint_fuel_S (fuel : nat) (C : Checkpoint)
    (node_state : CommonNodeState) :
  fuel_le (is_justified_checkpoint fuel C node_state)
          (is_justified_checkpoint (S fuel) C node_state).
Proof.
  revert C. induction fuel as [|fuel IH]; intros C; [by left|].
  cbn [is_justified_checkpoint].
  destruct (decide (C = genesis_checkpoint node_state)); [apply fuel_le_refl|].
  destruct (negb (has_block_hash (cp_block_hash C) node_state)); [apply fuel_le_refl|].
  apply fuel_le_bind; [apply fuel_le_refl|]. intros b.
  apply fuel_le_bind; [apply is_complete_chain_fuel_S|]. intros complete.
  destruct (negb complete); [apply fuel_le_refl|].
  apply fuel_le_bind; [apply fuel_le_refl|]. intros b'.
  apply fuel_le_bind; [|intros S0; apply fuel_le_refl].
  apply get_validators_in_FFG_support_with_fuel_S. intros c. apply IH.
Qed.

Lemma is_justified_checkpoint_fuel_le (fuel fuel' : nat) (C : Checkpoint)
    (node_state : CommonNodeState) :
  (fuel ≤ fuel')%nat →
  fuel_le (is_justified_checkpoint fuel C node_state)
          (is_justified_checkpoint fuel' C node_state).
Proof.
  induction 1 as [|m _ IH]; [apply fuel_le_refl|].
  eapply fuel_le_trans; [exact IH | apply is_justified_checkpoint_fuel_S].
Qed.

Lemma get_greatest_justified_checkpoint_fuel_le (fuel fuel' : nat)
    (node_state : CommonNodeState) :
  (fuel ≤ fuel')%nat →
  fuel_le (get_greatest_justified_checkpoint fuel node_state)
          (get_greatest_justified_checkpoint fuel' node_state).
Proof.
  intros Hle.
  unfold get_greatest_justified_checkpoint, get_justified_checkpoints,
    filter_out_non_justified_checkpoint.
  apply fuel_le_bind; [|intros js; apply fuel_le_refl].
  apply fuel_le_bind; [|intros js; apply fuel_le_refl].
  apply fuel_le_pset_filter_r. intros c.
  by apply is_justified_checkpoint_fuel_le.
Qed.
End FuelMonotone.

(** ** Valid votes *)

Section ValidVotes.
Context {stubs : Stubs}.

Lemma Ok_true_iff (b : bool) : Ok b = Ok true ↔ b = true.
Proof. split; [by intros [= ->] | by intros ->]. Qed.

Lemma lookup_then_Ok_true (h : Hash) (node_state : CommonNodeState) (f : Block → bool) :
  (get_block_from_hash h node_state ≫= λ b, Ok (f b)) = Ok true ↔
  ∃ b, get_block_from_hash h node_state = Ok b ∧ f b = true.
Proof.
  rewrite bind_Ok. split; intros (b & Hb & Hf); exists b; by rewrite Ok_true_iff in *.
Qed.

Lemma lookup_then_Ok_fuel (h : Hash) (node_state : CommonNodeState) (f : Block → bool) :
  (get_block_from_hash h node_state ≫= λ b, Ok (f b)) ≠ Raise OutOfFuel.
Proof.
  unfold get_block_from_hash. by destruct (view_blocks node_state !! h).
Qed.

Lemma get_block_from_hash_Ok (h : Hash) (node_state : CommonNodeState) (b : Block) :
  get_block_from_hash h node_state = Ok b ↔ view_blocks node_state !! h = Some b.
Proof.
  unfold get_block_from_hash.
  destruct (view_blocks node_state !! h); split; congruence.
Qed.

Lemma get_block_from_hash_fuel (h : Hash) (node_state : CommonNodeState) :
  get_block_from_hash h node_state ≠ Raise OutOfFuel.
Proof. unfold get_block_from_hash. by destruct (view_blocks node_state !! h). Qed.

Lemma has_block_hash_true (h : Hash) (node_state : CommonNodeState) :
  has_block_hash h node_state = true ↔ ∃ b, view_blocks node_state !! h = Some b.
Proof. unfold has_block_hash. by rewrite bool_decide_eq_true. Qed.

Lemma valid_FFG_vote_true (fuel : nat) (v : SignedVoteMessage)
    (node_state : CommonNodeState) :
  valid_FFG_vote fuel v node_state = Ok true ↔
  verify_vote_signature v = true ∧
  (∃ hb, get_block_from_hash (head_hash (message v)) node_state = Ok hb ∧
         is_validator (sender v)
           (get_validator_set_for_slot hb (vm_slot (message v)) node_state) = true) ∧
  is_ancestor_descendant_of_hashes fuel (cp_block_hash (ffg_source (message v)))
    (cp_block_hash (ffg_target (message v))) node_state = Ok true ∧
  chkp_slot (ffg_source (message v)) < chkp_slot (ffg_target (message v)) ∧
  has_block_hash (cp_block_hash (ffg_source (message v))) node_state = true ∧
  (∃ sb, get_block_from_hash (cp_block_hash (ffg_source (message v))) node_state = Ok sb ∧
         slot sb = block_slot (ffg_source (message v))) ∧
  has_block_hash (cp_block_hash (ffg_target (message v))) node_state = true ∧
  (∃ tb, get_block_from_hash (cp_block_hash (ffg_target (message v))) node_state = Ok tb ∧
         slot tb = block_slot (ffg_target (message v))).
Proof.
  unfold valid_FFG_vote.
  rewrite !andM_true, !lookup_then_Ok_true, !Ok_true_iff, Z.ltb_lt.
  setoid_rewrite Z.eqb_eq. tauto.
Qed.

Lemma valid_FFG_vote_source_below_target (fuel : nat) (v : SignedVoteMessage)
    (node_state : CommonNodeState) :
  valid_FFG_vote fuel v node_state = Ok true →
  chkp_slot (ffg_source (message v)) < chkp_slot (ffg_target (message v)).
Proof. rewrite valid_FFG_vote_true. tauto. Qed.

(** The recursive call of [is_FFG_vote_in_support_of_checkpoint_justification]
    is consulted only for a source strictly below the checkpoint: otherwise
    the answer does not depend on it. *)
Lemma support_recursion_descends (J1 J2 : Checkpoint → Result bool) (fuel : nat)
    (v : SignedVoteMessage) (C : Checkpoint) (node_state : CommonNodeState) :
  ¬ chkp_slot (ffg_source (message v)) < chkp_slot C →
  is_FFG_vote_in_support_with J1 fuel v C node_state
  = is_FFG_vote_in_support_with J2 fuel v C node_state.
Proof.
  intros Hnot. unfold is_FFG_vote_in_support_with.
  destruct (valid_FFG_vote fuel v node_state) as [[]|e] eqn:Hv;
    rewrite ?andM_true_l, ?andM_false_l, ?andM_raise_l; try done.
  apply valid_FFG_vote_source_below_target in Hv.
  destruct (Z.eqb_spec (chkp_slot (ffg_target (message v))) (chkp_slot C)) as [Heq|Hne];
    [lia|].
  by rewrite !andM_false_l.
Qed.
End ValidVotes.

(** ** Termination of the justification recursion *)

Section Termination.
Context {stubs : Stubs}.
Context (node_state : CommonNodeState) (rank : Block → nat) (R : nat).
Hypothesis Hranked : parents_ranked node_state rank R.

Lemma in_view_parent (b : Block) :
  has_parent b node_state = true →
  ∃ p, get_parent b node_state = Ok p ∧ in_view p node_state ∧
       view_blocks node_state !! parent_hash b = Some p.
Proof.
  unfold has_parent, get_parent. intros [p Hp]%has_block_hash_true.
  exists p. split; [by apply get_block_from_hash_Ok|]. split; [by exists (parent_hash b) | done].
Qed.

Lemma is_complete_chain_returns (fuel : nat) (b : Block) :
  in_view b node_state → (rank b < fuel)%nat →
  ∃ r, is_complete_chain fuel b node_state = Ok r.
Proof.
  revert b. induction fuel as [|fuel IH]; intros b Hb Hrk; [lia|].
  cbn [is_complete_chain].
  destruct (decide (b = genesis (configuration node_state))) as [|Hng]; [by eexists|].
  destruct (has_parent b node_state) eqn:Hp; cbn [negb]; [|by eexists].
  destruct (in_view_parent b Hp) as (p & -> & Hin & Hlook). rewrite bind_ret.
  apply IH; [done|].
  destruct Hb as [h Hh]. destruct Hranked as [Hdec _].
  specialize (Hdec h b p Hh Hng Hlook). lia.
Qed.

Lemma is_ancestor_descendant_relationship_returns (fuel : nat) (a d : Block) :
  in_view d node_state → (rank d < fuel)%nat →
  ∃ r, is_ancestor_descendant_relationship fuel a d node_state = Ok r.
Proof.
  revert d. induction fuel as [|fuel IH]; intros d Hd Hrk; [lia|].
  cbn [is_ancestor_descendant_relationship].
  destruct (decide (a = d)); [by eexists|].
  destruct (decide (d = genesis (configuration node_state))) as [|Hng]; [by eexists|].
  destruct (has_parent d node_state) eqn:Hp;
    rewrite ?andM_true_l, ?andM_false_l; [|by eexists].
  destruct (in_view_parent d Hp) as (p & -> & Hin & Hlook). rewrite bind_ret.
  apply IH; [done|].
  destruct Hd as [h Hh]. destruct Hranked as [Hdec _].
  specialize (Hdec h d p Hh Hng Hlook). lia.
Qed.

Lemma is_ancestor_descendant_of_hashes_fuel (fuel : nat) (a d : Hash) :
  (R ≤ fuel)%nat →
  is_ancestor_descendant_of_hashes fuel a d node_state ≠ Raise OutOfFuel.
Proof.
  intros Hfuel. unfold is_ancestor_descendant_of_hashes.
  destruct (get_block_from_hash a node_state) as [ba|e] eqn:Ha;
    [rewrite bind_ret | rewrite bind_raise; intros [= ->];
                        by apply get_block_from_hash_fuel in Ha].
  destruct (get_block_from_hash d node_state) as [bd|e] eqn:Hd;
    [rewrite bind_ret | rewrite bind_raise; intros [= ->];
                        by apply get_block_from_hash_fuel in Hd].
  apply get_block_from_hash_Ok in Hd.
  destruct (is_ancestor_descendant_relationship_returns fuel ba bd) as [r ->]; [| |done].
  - by exists d.
  - destruct Hranked as [_ Hbound]. specialize (Hbound d bd Hd). lia.
Qed.

Lemma valid_FFG_vote_fuel (fuel : nat) (v : SignedVoteMessage) :
  (R ≤ fuel)%nat → valid_FFG_vote fuel v node_state ≠ Raise OutOfFuel.
Proof.
  intros Hfuel Hoof. unfold valid_FFG_vote in Hoof.
  repeat (apply andM_OutOfFuel in Hoof as [Hoof|[_ Hoof]];
          [first [ discriminate Hoof
                 | by apply lookup_then_Ok_fuel in Hoof
                 | by apply is_ancestor_descendant_of_hashes_fuel in Hoof ]|]).
  by apply lookup_then_Ok_fuel in Hoof.
Qed.

Lemma votes_below_source (fuel : nat) (v : SignedVoteMessage) (C : Checkpoint) :
  v ∈ view_votes node_state →
  valid_FFG_vote fuel v node_state = Ok true →
  chkp_slot (ffg_target (message v)) = chkp_slot C →
  (size (votes_below (ffg_source (message v)) node_state)
   < size (votes_below C node_state))%nat.
Proof.
  intros Hv Hvalid%valid_FFG_vote_source_below_target Htgt.
  apply subset_size. unfold votes_below. split.
  - intros x. rewrite !elem_of_filter. intros [Hx ?]. split; [lia | done].
  - intros Hsub. specialize (Hsub v). rewrite !elem_of_filter in Hsub.
    destruct Hsub as [Hlt _]; [split; [lia | done] | lia].
Qed.

Lemma is_justified_checkpoint_fuel (fuel : nat) (C : Checkpoint) :
  (R + size (votes_below C node_state) + 1 ≤ fuel)%nat →
  is_justified_checkpoint fuel C node_state ≠ Raise OutOfFuel.
Proof.
  revert C. induction fuel as [|fuel IH]; intros C Hfuel; [lia|].
  cbn [is_justified_checkpoint].
  destruct (decide (C = genesis_checkpoint node_state)); [done|].
  destruct (negb (has_block_hash (cp_block_hash C) node_state)); [done|].
  destruct (get_block_from_hash (cp_block_hash C) node_state) as [b|e] eqn:Hb;
    [rewrite !bind_ret | rewrite bind_raise; intros [= ->];
                         by apply get_block_from_hash_fuel in Hb].
  apply get_block_from_hash_Ok in Hb.
  destruct (is_complete_chain_returns fuel b) as [complete ->].
  { by exists (cp_block_hash C). }
  { destruct Hranked as [_ Hbound]. specialize (Hbound _ b Hb). lia. }
  rewrite bind_ret. destruct complete; cbn [negb]; [|done].
  destruct (get_validators_in_FFG_support_with _ fuel (view_votes node_state) C node_state)
    as [S0|e] eqn:HS; [done|].
  rewrite bind_raise. intros [= ->].
  unfold get_validators_in_FFG_support_with, filter_out_FFG_votes_not_in_support_with in HS.
  destruct (pset_filter_r _ (view_votes node_state)) as [vs|e] eqn:Hvs; [done|].
  rewrite bind_raise in HS. injection HS as ->.
  apply pset_filter_r_raises in Hvs as (v & Hv & Hoof).
  unfold is_FFG_vote_in_support_with in Hoof.
  apply andM_OutOfFuel in Hoof as [Hoof|[Hvalid Hoof]];
    [apply valid_FFG_vote_fuel in Hoof; [done | lia]|].
  apply andM_OutOfFuel in Hoof as [Hoof|[Htgt Hoof]]; [discriminate|].
  apply andM_OutOfFuel in Hoof as [Hoof|[_ Hoof]];
    [apply is_ancestor_descendant_of_hashes_fuel in Hoof; [done | lia]|].
  apply andM_OutOfFuel in Hoof as [Hoof|[_ Hoof]];
    [apply is_ancestor_descendant_of_hashes_fuel in Hoof; [done | lia]|].
  apply Ok_true_iff, Z.eqb_eq in Htgt.
  pose proof (votes_below_source fuel v C Hv Hvalid Htgt) as Hsize.
  apply IH in Hoof; [done | lia].
Qed.

Lemma size_votes_below (C : Checkpoint) :
  (size (votes_below C node_state) ≤ size (view_votes node_state))%nat.
Proof.
  apply subseteq_size. unfold votes_below. intros x. rewrite elem_of_filter. tauto.
Qed.

(** C5, amended. In a view whose parent links are well founded (a rank
    below [R] that decreases from each block of the view to its parent),
    [is_justified_checkpoint] returns on every checkpoint: with fuel
    [R + |view_votes| + 1] it gives a Boolean or a [KeyError], and no
    further fuel changes that outcome. The recursive call made through
    [is_FFG_vote_in_support_of_checkpoint_justification] is reached only for
    a source whose [chkp_slot] is strictly below the checkpoint's. *)
Theorem is_justified_checkpoint_terminates (C : Checkpoint) :
  let N := (R + size (view_votes node_state) + 1)%nat in
  is_justified_checkpoint N C node_state ≠ Raise OutOfFuel ∧
  (∀ fuel, (N ≤ fuel)%nat →
           is_justified_checkpoint fuel C node_state
           = is_justified_checkpoint N C node_state) ∧
  (∀ J1 J2 fuel v, ¬ chkp_slot (ffg_source (message v)) < chkp_slot C →
           is_FFG_vote_in_support_with J1 fuel v C node_state
           = is_FFG_vote_in_support_with J2 fuel v C node_state).
Proof.
  intros N.
  assert (HN : is_justified_checkpoint N C node_state ≠ Raise OutOfFuel).
  { apply is_justified_checkpoint_fuel. pose proof (size_votes_below C). lia. }
  split; [done|]. split.
  - intros fuel Hle.
    destruct (is_justified_checkpoint_fuel_le N fuel C node_state Hle) as [Hoof|Heq];
      [done | exact Heq].
  - intros J1 J2 fuel v Hnot. by apply support_recursion_descends.
Qed.
End Termination.

(** ** Weights *)

Lemma pset_sum_app (l1 l2 : list Z) : pset_sum (l1 ++ l2) = pset_sum l1 + pset_sum l2.
Proof. unfold pset_sum. induction l1 as [|x l1 IH]; cbn; lia. Qed.

Lemma pset_sum_perm (l1 l2 : list Z) : l1 ≡ₚ l2 → pset_sum l1 = pset_sum l2.
Proof. unfold pset_sum. induction 1; cbn; lia. Qed.

Lemma pset_sum_nonneg (l : list Z) : (∀ x, x ∈ l → 0 ≤ x) → 0 ≤ pset_sum l.
Proof.
  unfold pset_sum. induction l as [|x l IH]; intros Hl; cbn; [lia|].
  assert (0 ≤ x) by (apply Hl; left).
  assert (0 ≤ foldr Z.add 0 l) by (apply IH; intros y Hy; apply Hl; by right).
  lia.
Qed.

Lemma validator_set_weight_mono (S S' : gset NodeIdentity) (vb : ValidatorBalances) :
  S ⊆ S' → (∀ n w, vb !! n = Some w → 0 ≤ w) →
  validator_set_weight S vb ≤ validator_set_weight S' vb.
Proof.
  intros Hsub Hnn. unfold validator_set_weight, pset_map.
  set (X := dom vb ∩ S). set (Y := dom vb ∩ S').
  assert (HXY : X ⊆ Y) by (unfold X, Y; set_solver).
  assert (Hdisj : X ## Y ∖ X) by set_solver.
  rewrite (union_difference_L X Y HXY).
  rewrite (pset_sum_perm _ _ (fmap_Permutation _ _ _ (elements_disj_union _ _ Hdisj))).
  rewrite fmap_app, pset_sum_app.
  assert (0 ≤ pset_sum ((λ v, vb !!! v) <$> elements (Y ∖ X))); [|lia].
  apply pset_sum_nonneg. intros x (n & -> & Hn)%list_elem_of_fmap.
  apply elem_of_elements in Hn.
  assert (n ∈ dom vb) as [w Hw]%elem_of_dom by (unfold Y in Hn; set_solver).
  rewrite (lookup_total_correct _ _ _ Hw). by eapply Hnn.
Qed.

(** ** The greatest element *)

Lemma tuple_le_refl (a : Z * Z) : tuple_le a a.
Proof. unfold tuple_le. lia. Qed.

Lemma tuple_le_trans (a b c : Z * Z) : tuple_le a b → tuple_le b c → tuple_le a c.
Proof. unfold tuple_le. lia. Qed.

Lemma foldl_greatest {A : Type} (key : A → Z * Z) (l : list A) (x : A) :
  let best := foldl (λ best y, if tuple_lt (key best) (key y) then y else best) x l in
  (best = x ∨ best ∈ l) ∧ tuple_le (key x) (key best) ∧
  ∀ y, y ∈ l → tuple_le (key y) (key best).
Proof.
  revert x. induction l as [|y l IH]; intros x; cbn.
  - split; [by left|]. split; [apply tuple_le_refl|].
    intros y Hy. by apply elem_of_nil in Hy.
  - destruct (IH (if tuple_lt (key x) (key y) then y else x)) as (Hin & Hge & Hall).
    destruct (tuple_lt (key x) (key y)) eqn:Hlt.
    + apply tuple_lt_spec in Hlt.
      split; [right; destruct Hin as [->|?]; [left | by right]|].
      split; [eapply tuple_le_trans; [|exact Hge]; unfold tuple_le; lia|].
      intros z [->|Hz]%elem_of_cons; [done | by apply Hall].
    + assert (tuple_le (key y) (key x)) as Hyx.
      { destruct (tuple_lt_spec (key x) (key y)) as [_ Hback].
        unfold tuple_le. destruct (key x), (key y); cbn in *.
        destruct (Z_lt_le_dec z z1) as [?|?];
          [exfalso; rewrite Hback in Hlt; [done | lia]|].
        destruct (Z.eq_dec z z1) as [->|?]; [|lia].
        destruct (Z_lt_le_dec z0 z2) as [?|?];
          [exfalso; rewrite Hback in Hlt; [done | lia] | lia]. }
      split; [destruct Hin as [->|?]; [by left | right; by right]|].
      split; [done|].
      intros z [->|Hz]%elem_of_cons;
        [eapply tuple_le_trans; [exact Hyx | exact Hge] | by apply Hall].
Qed.

Lemma pset_max_greatest {A : Type} `{Countable A} (key : A → Z * Z) (s : gset A) (c : A) :
  pset_max tuple_lt key s = Some c →
  c ∈ s ∧ ∀ x, x ∈ s → tuple_le (key x) (key c).
Proof.
  unfold pset_max, list_max_by.
  destruct (elements s) as [|x l] eqn:Hel; [discriminate|]. intros [= <-].
  destruct (foldl_greatest key l x) as (Hin & Hge & Hall).
  split.
  - apply elem_of_elements. rewrite Hel.
    destruct Hin as [->|?]; [left | by right].
  - intros y Hy. apply elem_of_elements in Hy. rewrite Hel in Hy.
    apply elem_of_cons in Hy as [->|Hy]; [done | by apply Hall].
Qed.

(** ** Justification under view growth *)

Section Monotone.
Context {stubs : Stubs}.
Context (node_state node_state' : CommonNodeState).
Hypothesis Hgrows : view_grows node_state node_state'.
Hypothesis Hstable : balances_stable node_state node_state'.
Hypothesis Hnonneg : balances_nonneg node_state'.

Lemma lookup_grows (h : Hash) (b : Block) :
  view_blocks node_state !! h = Some b → view_blocks node_state' !! h = Some b.
Proof.
  destruct Hgrows as (_ & Hsub & _). intros Hb. by eapply lookup_weaken.
Qed.

Lemma get_block_from_hash_grows (h : Hash) (b : Block) :
  get_block_from_hash h node_state = Ok b → get_block_from_hash h node_state' = Ok b.
Proof. rewrite !get_block_from_hash_Ok. apply lookup_grows. Qed.

Lemma has_block_hash_grows (h : Hash) :
  has_block_hash h node_state = true → has_block_hash h node_state' = true.
Proof. rewrite !has_block_hash_true. intros [b Hb]. exists b. by apply lookup_grows. Qed.

Lemma genesis_grows : genesis (configuration node_state') = genesis (configuration node_state).
Proof. destruct Hgrows as (-> & _). done. Qed.

Lemma genesis_checkpoint_grows :
  genesis_checkpoint node_state' = genesis_checkpoint node_state.
Proof. unfold genesis_checkpoint. by rewrite genesis_grows. Qed.

Lemma is_complete_chain_grows (fuel : nat) (b : Block) :
  is_complete_chain fuel b node_state = Ok true →
  is_complete_chain fuel b node_state' = Ok true.
Proof.
  revert b. induction fuel as [|fuel IH]; intros b; [discriminate|].
  cbn [is_complete_chain]. rewrite genesis_grows.
  destruct (decide (b = genesis (configuration node_state))); [done|].
  destruct (has_parent b node_state) eqn:Hp; cbn [negb]; [|discriminate].
  unfold has_parent in *. rewrite (has_block_hash_grows _ Hp). cbn [negb].
  unfold get_parent.
  intros (p & Hget & Hrec)%bind_Ok.
  rewrite (get_block_from_hash_grows _ _ Hget), bind_ret. by apply IH.
Qed.

Lemma is_ancestor_descendant_relationship_grows (fuel : nat) (a d : Block) :
  is_ancestor_descendant_relationship fuel a d node_state = Ok true →
  is_ancestor_descendant_relationship fuel a d node_state' = Ok true.
Proof.
  revert d. induction fuel as [|fuel IH]; intros d; [discriminate|].
  cbn [is_ancestor_descendant_relationship]. rewrite genesis_grows.
  destruct (decide (a = d)); [done|].
  destruct (decide (d = genesis (configuration node_state))); [done|].
  intros [[= Hp] Hrest]%andM_true.
  unfold has_parent in *. rewrite (has_block_hash_grows _ Hp), andM_true_l.
  unfold get_parent in *.
  apply bind_Ok in Hrest as (p & Hget & Hrec).
  rewrite (get_block_from_hash_grows _ _ Hget), bind_ret. by apply IH.
Qed.

Lemma is_ancestor_descendant_of_hashes_grows (fuel : nat) (a d : Hash) :
  is_ancestor_descendant_of_hashes fuel a d node_state = Ok true →
  is_ancestor_descendant_of_hashes fuel a d node_state' = Ok true.
Proof.
  unfold is_ancestor_descendant_of_hashes.
  intros (ba & Ha & (bd & Hd & Hrel)%bind_Ok)%bind_Ok.
  rewrite (get_block_from_hash_grows _ _ Ha), bind_ret.
  rewrite (get_block_from_hash_grows _ _ Hd), bind_ret.
  by apply is_ancestor_descendant_relationship_grows.
Qed.

Lemma valid_FFG_vote_grows (fuel : nat) (v : SignedVoteMessage) :
  valid_FFG_vote fuel v node_state = Ok true →
  valid_FFG_vote fuel v node_state' = Ok true.
Proof.
  rewrite !valid_FFG_vote_true.
  intros (Hsig & (hb & Hhb & Hval) & Hanc & Hlt & Hs & (sb & Hsb & Hss) & Ht
          & (tb & Htb & Hts)).
  split; [done|]. split.
  { exists hb. split; [by apply get_block_from_hash_grows|]. by rewrite <- Hstable. }
  split; [by apply is_ancestor_descendant_of_hashes_grows|].
  split; [done|]. split; [by apply has_block_hash_grows|].
  split; [exists sb; split; [by apply get_block_from_hash_grows | done]|].
  split; [by apply has_block_hash_grows|].
  exists tb. split; [by apply get_block_from_hash_grows | done].
Qed.

(** A vote that supports a checkpoint in the old view supports it in the
    new one, as long as the justification of its source is preserved. *)
Lemma is_FFG_vote_in_support_with_grows (J J' : Checkpoint → Result bool) (fuel : nat)
    (v : SignedVoteMessage) (C : Checkpoint) (r : bool) :
  (∀ c r', J c = Ok true → J' c = Ok r' → r' = true) →
  is_FFG_vote_in_support_with J fuel v C node_state = Ok true →
  is_FFG_vote_in_support_with J' fuel v C node_state' = Ok r →
  r = true.
Proof.
  intros HJ. unfold is_FFG_vote_in_support_with.
  rewrite !andM_true. intros (Hvalid & Heq & Hanc1 & Hanc2 & Hsrc).
  rewrite (valid_FFG_vote_grows _ _ Hvalid), andM_true_l, Heq, andM_true_l.
  rewrite (is_ancestor_descendant_of_hashes_grows _ _ _ Hanc1), andM_true_l.
  rewrite (is_ancestor_descendant_of_hashes_grows _ _ _ Hanc2), andM_true_l.
  by apply HJ.
Qed.

Lemma get_validators_in_FFG_support_with_grows (J J' : Checkpoint → Result bool)
    (fuel : nat) (C : Checkpoint) (S S' : gset NodeIdentity) :
  (∀ c r', J c = Ok true → J' c = Ok r' → r' = true) →
  get_validators_in_FFG_support_with J fuel (view_votes node_state) C node_state = Ok S →
  get_validators_in_FFG_support_with J' fuel (view_votes node_state') C node_state' = Ok S' →
  S ⊆ S'.
Proof.
  intros HJ.
  unfold get_validators_in_FFG_support_with, filter_out_FFG_votes_not_in_support_with.
  intros (vs & Hvs & [= <-])%bind_Ok (vs' & Hvs' & [= <-])%bind_Ok.
  destruct (pset_filter_r_Ok _ _ _ Hvs) as [_ Hmem].
  destruct (pset_filter_r_Ok _ _ _ Hvs') as [Hall' Hmem'].
  unfold pset_map_to_pset. intros n. rewrite !elem_of_map.
  intros (v & -> & [Hv Hsupp]%Hmem). exists v. split; [done|].
  apply Hmem'.
  assert (v ∈ view_votes node_state') as Hv' by (destruct Hgrows as (_ & _ & Hsub); auto).
  split; [done|].
  destruct (Hall' v Hv') as [r Hr]. rewrite Hr. f_equal.
  by eapply is_FFG_vote_in_support_with_grows.
Qed.

Lemma is_justified_checkpoint_grows (fuel : nat) (C : Checkpoint) (r : bool) :
  is_justified_checkpoint fuel C node_state = Ok true →
  is_justified_checkpoint fuel C node_state' = Ok r →
  r = true.
Proof.
  revert C r. induction fuel as [|fuel IH]; intros C r; [discriminate|].
  cbn [is_justified_checkpoint]. rewrite genesis_checkpoint_grows.
  destruct (decide (C = genesis_checkpoint node_state)); [congruence|].
  destruct (has_block_hash (cp_block_hash C) node_state) eqn:Hhas; cbn [negb];
    [|discriminate].
  rewrite (has_block_hash_grows _ Hhas). cbn [negb].
  intros (b & Hb & Hold)%bind_Ok.
  rewrite (get_block_from_hash_grows _ _ Hb), !bind_ret.
  apply bind_Ok in Hold as (complete & Hcomplete & Hold).
  destruct complete; cbn [negb] in Hold; [|discriminate].
  rewrite (is_complete_chain_grows _ _ Hcomplete), bind_ret. cbn [negb].
  rewrite Hb, bind_ret in Hold.
  apply bind_Ok in Hold as (S & HS & [= Hsuper]).
  intros (S' & HS' & [= <-])%bind_Ok.
  apply supermajority_spec in Hsuper. apply supermajority_spec.
  rewrite <- Hstable.
  set (vb := get_validator_set_for_slot b (block_slot C) node_state) in *.
  assert (validator_set_weight S vb ≤ validator_set_weight S' vb); [|lia].
  apply validator_set_weight_mono.
  - eapply get_validators_in_FFG_support_with_grows; [|exact HS|exact HS'].
    intros c r'. apply IH.
  - intros v w. unfold vb. rewrite Hstable. apply Hnonneg.
Qed.

Lemma get_justified_checkpoints_grows (fuel : nat) (js js' : gset Checkpoint) :
  get_justified_checkpoints fuel node_state = Ok js →
  get_justified_checkpoints fuel node_state' = Ok js' →
  js ⊆ js'.
Proof.
  unfold get_justified_checkpoints, filter_out_non_justified_checkpoint.
  intros (fs & Hfs & [= <-])%bind_Ok (fs' & Hfs' & [= <-])%bind_Ok.
  rewrite genesis_checkpoint_grows.
  destruct (pset_filter_r_Ok _ _ _ Hfs) as [_ Hmem].
  destruct (pset_filter_r_Ok _ _ _ Hfs') as [Hall' Hmem'].
  intros c [Hc|Hc]%elem_of_union; [|set_solver].
  apply elem_of_union_l, Hmem'.
  apply Hmem in Hc as [Hc Hj].
  assert (c ∈ get_set_FFG_targets (view_votes node_state')) as Hc'.
  { unfold get_set_FFG_targets, pset_map_to_pset in *.
    apply elem_of_map in Hc as (v & -> & Hv). apply elem_of_map.
    exists v. split; [done|]. destruct Hgrows as (_ & _ & Hsub). auto. }
  split; [done|]. destruct (Hall' c Hc') as [r Hr]. rewrite Hr. f_equal.
  by eapply is_justified_checkpoint_grows.
Qed.

Lemma greatest_justified_checkpoint_grows (fuel fuel' : nat) (c c' : Checkpoint) :
  get_greatest_justified_checkpoint fuel node_state = Ok c →
  get_greatest_justified_checkpoint fuel' node_state' = Ok c' →
  tuple_le (checkpoint_key c) (checkpoint_key c').
Proof.
  intros Hc Hc'.
  apply (fuel_le_Ok _ _ _ (get_greatest_justified_checkpoint_fuel_le
           fuel (max fuel fuel') node_state (Nat.le_max_l _ _))) in Hc.
  apply (fuel_le_Ok _ _ _ (get_greatest_justified_checkpoint_fuel_le
           fuel' (max fuel fuel') node_state' (Nat.le_max_r _ _))) in Hc'.
  unfold get_greatest_justified_checkpoint in Hc, Hc'.
  apply bind_Ok in Hc as (js & Hjs & Hmax).
  apply bind_Ok in Hc' as (js' & Hjs' & Hmax').
  destruct (pset_max tuple_lt checkpoint_key js) as [m|] eqn:Hm; [|discriminate].
  destruct (pset_max tuple_lt checkpoint_key js') as [m'|] eqn:Hm'; [|discriminate].
  injection Hmax as ->. injection Hmax' as ->.
  apply pset_max_greatest in Hm as [Hin _].
  apply pset_max_greatest in Hm' as [_ Hge].
  apply Hge. by eapply get_justified_checkpoints_grows.
Qed.
End Monotone.

(** ** The claims on justification *)

Lemma three_block_view (h : Hash) (b : Block) :
  ({[ "g" := G0; "a" := A1; "b" := B2 ]} : BlockView) !! h = Some b →
  (h = "g" ∧ b = G0) ∨ (h = "a" ∧ b = A1) ∨ (h = "b" ∧ b = B2).
Proof.
  intros [[<- <-]|[_ [[<- <-]|[_ [<- <-]%lookup_singleton_Some]]%lookup_insert_Some]]
    %lookup_insert_Some; auto.
Qed.

Lemma split_state_ranked : parents_ranked split_state slot_rank 3.
Proof.
  split.
  - intros h b p Hb Hng Hp. cbn in Hb, Hng, Hp.
    apply three_block_view in Hb as [[_ ->]|[[_ ->]|[_ ->]]]; [done| |];
      apply three_block_view in Hp as [[_ ->]|[[Hh _]|[Hh _]]];
      try discriminate Hh; vm_compute; lia.
  - intros h b Hb. cbn in Hb.
    apply three_block_view in Hb as [[_ ->]|[[_ ->]|[_ ->]]]; vm_compute; lia.
Qed.

Lemma is_justified_checkpoint_terminates_witness :
  let N := (3 + size (view_votes split_state) + 1)%nat in
  @is_justified_checkpoint accepting_stubs N target_a split_state ≠ Raise OutOfFuel ∧
  (∀ fuel, (N ≤ fuel)%nat →
           @is_justified_checkpoint accepting_stubs fuel target_a split_state
           = @is_justified_checkpoint accepting_stubs N target_a split_state) ∧
  (∀ J1 J2 fuel v, ¬ chkp_slot (ffg_source (message v)) < chkp_slot target_a →
           @is_FFG_vote_in_support_with accepting_stubs J1 fuel v target_a split_state
           = @is_FFG_vote_in_support_with accepting_stubs J2 fuel v target_a split_state).
Proof.
  exact (@is_justified_checkpoint_terminates accepting_stubs split_state slot_rank 3
           split_state_ranked target_a).
Defined.

Lemma is_complete_chain_cyclic (fuel : nat) :
  is_complete_chain fuel X1 cyclic_state = Raise OutOfFuel.
Proof.
  induction fuel as [|fuel IH]; [done|].
  cbn [is_complete_chain].
  destruct (decide (X1 = genesis (configuration cyclic_state))) as [Heq|_];
    [discriminate Heq|].
  replace (has_parent X1 cyclic_state) with true by reflexivity. cbn [negb].
  replace (get_parent X1 cyclic_state) with (Ok X1) by reflexivity.
  by rewrite bind_ret.
Qed.

(** C5 as stated fails on a view with finitely many blocks whose parent
    links are not well founded. In [cyclic_state] every block is filed under
    its hash, the block under "x" names "x" as its parent, and
    [is_justified_checkpoint] on the checkpoint ("x", 1, 1) never returns:
    [is_complete_chain] walks from the block to itself, whatever the fuel. *)
Lemma is_justified_checkpoint_cyclic_view :
  (∀ h b, view_blocks cyclic_state !! h = Some b → @block_hash cyclic_stubs b = h) ∧
  ∀ fuel : nat,
    @is_justified_checkpoint cyclic_stubs fuel (mkCheckpoint "x" 1 1) cyclic_state
    = Raise OutOfFuel.
Proof.
  split.
  { intros h b. cbn.
    by intros [[<- <-]|[_ [<- <-]%lookup_singleton_Some]]%lookup_insert_Some. }
  intros [|fuel]; [done|].
  cbn [is_justified_checkpoint].
  destruct (decide (mkCheckpoint "x" 1 1 = @genesis_checkpoint cyclic_stubs cyclic_state))
    as [Heq|_]; [discriminate Heq|].
  replace (has_block_hash (cp_block_hash (mkCheckpoint "x" 1 1)) cyclic_state)
    with true by reflexivity.
  cbn [negb].
  replace (get_block_from_hash (cp_block_hash (mkCheckpoint "x" 1 1)) cyclic_state)
    with (Ok X1) by reflexivity.
  by rewrite bind_ret, is_complete_chain_cyclic, bind_raise.
Qed.

(** C4. When the view grows -- same configuration, every block binding
    and every vote kept -- and the validator-set oracle answers by block and
    slot with non-negative stakes, the greatest justified checkpoint of the
    larger view is at least the one of the smaller view in the
    lexicographic order on [(chkp_slot, block_slot)]. *)
Theorem greatest_justified_checkpoint_monotone {stubs : Stubs}
    (node_state node_state' : CommonNodeState) (fuel fuel' : nat) (c c' : Checkpoint) :
  view_grows node_state node_state' →
  balances_stable node_state node_state' →
  balances_nonneg node_state' →
  get_greatest_justified_checkpoint fuel node_state = Ok c →
  get_greatest_justified_checkpoint fuel' node_state' = Ok c' →
  tuple_le (checkpoint_key c) (checkpoint_key c').
Proof.
  intros Hgrows Hstable Hnonneg.
  by apply greatest_justified_checkpoint_grows.
Qed.

Lemma accepting_stubs_nonneg (node_state : CommonNodeState) :
  @balances_nonneg accepting_stubs node_state.
Proof.
  intros b s n w. cbn.
  intros [[_ <-]|[_ [[_ <-]|[_ [_ <-]%lookup_singleton_Some]]%lookup_insert_Some]]
    %lookup_insert_Some; lia.
Qed.

Lemma greatest_justified_checkpoint_monotone_witness :
  @get_greatest_justified_checkpoint accepting_stubs 10 quiet_state = Ok gcp0 ∧
  @get_greatest_justified_checkpoint accepting_stubs 10 voted_state = Ok target_a ∧
  tuple_le (checkpoint_key gcp0) (checkpoint_key target_a).
Proof.
  assert (@get_greatest_justified_checkpoint accepting_stubs 10 quiet_state = Ok gcp0)
    as Hquiet by (vm_compute; reflexivity).
  assert (@get_greatest_justified_checkpoint accepting_stubs 10 voted_state = Ok target_a)
    as Hvoted by (vm_compute; reflexivity).
  split; [exact Hquiet|]. split; [exact Hvoted|].
  apply (@greatest_justified_checkpoint_monotone accepting_stubs
           quiet_state voted_state 10 10 gcp0 target_a).
  - split; [reflexivity|]. split; [reflexivity|]. apply empty_subseteq.
  - intros b s. reflexivity.
  - apply accepting_stubs_nonneg.
  - exact Hquiet.
  - exact Hvoted.
Defined.

(** Across the view that [execute_view_merge] computes: it is a view growth
    when the buffered blocks agree with the view on the hashes they share. *)
Lemma rlmd_merged_common_monotone {stubs : Stubs} (node_state : RLMD.NodeState)
    (fuel fuel' : nat) (c c' : Checkpoint) :
  let old := RLMD.common node_state in
  let new := RLMD.merged_common node_state in
  (∀ h b b', view_blocks old !! h = Some b →
             RLMD.buffer_blocks node_state !! h = Some b' → b = b') →
  balances_stable old new →
  balances_nonneg new →
  get_greatest_justified_checkpoint fuel old = Ok c →
  get_greatest_justified_checkpoint fuel' new = Ok c' →
  tuple_le (checkpoint_key c) (checkpoint_key c').
Proof.
  intros old new Hagree Hstable Hnonneg.
  apply greatest_justified_checkpoint_grows; [|done|done].
  split; [reflexivity|]. split.
  - cbn. apply map_subseteq_spec. intros h b Hb.
    rewrite lookup_pmap_merge.
    destruct (RLMD.buffer_blocks node_state !! h) as [b'|] eqn:Hbuf; [|done].
    f_equal. symmetry. by eapply Hagree.
  - cbn. set_solver.
Qed.

(** * Further properties of the block view *)

Section Walks.
Context {stubs : Stubs}.

Lemma is_complete_chain_fuel_le (fuel fuel' : nat) (b : Block) (node_state : CommonNodeState) :
  (fuel ≤ fuel')%nat →
  fuel_le (is_complete_chain fuel b node_state) (is_complete_chain fuel' b node_state).
Proof.
  induction 1 as [|m _ IH]; [apply fuel_le_refl|].
  eapply fuel_le_trans; [exact IH | apply is_complete_chain_fuel_S].
Qed.

Lemma is_ancestor_descendant_relationship_fuel_le (fuel fuel' : nat) (a d : Block)
    (node_state : CommonNodeState) :
  (fuel ≤ fuel')%nat →
  fuel_le (is_ancestor_descendant_relationship fuel a d node_state)
          (is_ancestor_descendant_relationship fuel' a d node_state).
Proof.
  induction 1 as [|m _ IH]; [apply fuel_le_refl|].
  eapply fuel_le_trans; [exact IH | apply is_ancestor_descendant_relationship_fuel_S].
Qed.

(** One step of the ancestor walk that does not stop at the descendant. *)
Lemma is_ancestor_descendant_relationship_step (fuel : nat) (a d : Block)
    (node_state : CommonNodeState) :
  a ≠ d →
  is_ancestor_descendant_relationship (S fuel) a d node_state = Ok true →
  d ≠ genesis (configuration node_state) ∧
  has_parent d node_state = true ∧
  ∃ p, get_parent d node_state = Ok p ∧
       is_ancestor_descendant_relationship fuel a p node_state = Ok true.
Proof.
  intros Hne. cbn [is_ancestor_descendant_relationship].
  destruct (decide (a = d)); [done|].
  destruct (decide (d = genesis (configuration node_state))); [discriminate|].
  intros [[= Hp] (p & Hget & Hrec)%bind_Ok]%andM_true. eauto.
Qed.

Lemma ancestor_walks_compose (n m : nat) (a b c : Block)
    (node_state : CommonNodeState) :
  is_ancestor_descendant_relationship n a b node_state = Ok true →
  is_ancestor_descendant_relationship m b c node_state = Ok true →
  is_ancestor_descendant_relationship (n + m) a c node_state = Ok true.
Proof.
  intros Hab. revert c. induction m as [|m IH]; intros c Hbc; [discriminate|].
  destruct (decide (b = c)) as [<-|Hne].
  - eapply fuel_le_Ok; [|exact Hab].
    apply is_ancestor_descendant_relationship_fuel_le. lia.
  - apply is_ancestor_descendant_relationship_step in Hbc
      as (Hng & Hp & p & Hget & Hrec); [|done].
    rewrite Nat.add_succ_r. cbn [is_ancestor_descendant_relationship].
    destruct (decide (a = c)); [done|].
    destruct (decide (c = genesis (configuration node_state))); [done|].
    rewrite Hp, andM_true_l, Hget, bind_ret. by apply IH.
Qed.

(** X1. The ancestor relation computed by
    [is_ancestor_descendant_relationship] composes: when [a] is found to be
    an ancestor of [b] and [b] an ancestor of [c], then [a] is found to be an
    ancestor of [c] (with the fuel of both walks). *)
Theorem is_ancestor_descendant_relationship_trans (n m : nat) (a b c : Block)
    (node_state : CommonNodeState) :
  is_ancestor_descendant_relationship n a b node_state = Ok true →
  is_ancestor_descendant_relationship m b c node_state = Ok true →
  is_ancestor_descendant_relationship (n + m) a c node_state = Ok true.
Proof. apply ancestor_walks_compose. Qed.

(** X2. Complete chains are closed along the ancestor relation: when [a] is
    found to be an ancestor of [d], [d] on a complete chain puts [a] on a
    complete chain, and [a] on a complete chain puts [d] on one. *)
Theorem is_complete_chain_along_ancestors (n m : nat) (a d : Block)
    (node_state : CommonNodeState) :
  is_ancestor_descendant_relationship m a d node_state = Ok true →
  (is_complete_chain n d node_state = Ok true →
   is_complete_chain n a node_state = Ok true) ∧
  (is_complete_chain n a node_state = Ok true →
   is_complete_chain (n + m) d node_state = Ok true).
Proof.
  revert n d. induction m as [|m IH]; intros n d Had; [discriminate|].
  destruct (decide (a = d)) as [<-|Hne].
  { split; [done|]. intros Ha. eapply fuel_le_Ok; [|exact Ha].
    apply is_complete_chain_fuel_le. lia. }
  apply is_ancestor_descendant_relationship_step in Had
    as (Hng & Hp & p & Hget & Hrec); [|done].
  split.
  - destruct n as [|n]; [discriminate|]. cbn [is_complete_chain].
    destruct (decide (d = genesis (configuration node_state))); [done|].
    rewrite Hp. cbn [negb]. rewrite Hget, bind_ret. intros Hd.
    destruct (IH n p Hrec) as [Hup _].
    eapply fuel_le_Ok; [apply is_complete_chain_fuel_S | by apply Hup].
  - intros Ha. destruct (IH n p Hrec) as [_ Hdown].
    rewrite Nat.add_succ_r. cbn [is_complete_chain].
    destruct (decide (d = genesis (configuration node_state))); [done|].
    rewrite Hp. cbn [negb]. rewrite Hget, bind_ret. by apply Hdown.
Qed.

(** X3. On a block of a complete chain [get_blockchain] returns the chain:
    it starts at the block, ends at the genesis block, and each element but
    the last is followed by its parent. *)
Theorem get_blockchain_complete (fuel : nat) (b : Block) (node_state : CommonNodeState) :
  is_complete_chain fuel b node_state = Ok true →
  ∃ l, get_blockchain fuel b node_state = Ok l ∧
       head l = Some b ∧
       last l = Some (genesis (configuration node_state)) ∧
       (length l ≤ fuel)%nat ∧
       ∀ i x y, l !! i = Some x → l !! S i = Some y →
                x ≠ genesis (configuration node_state) ∧ get_parent x node_state = Ok y.
Proof.
  revert b. induction fuel as [|fuel IH]; intros b Hc; [discriminate|].
  cbn [get_blockchain]. rewrite Hc, bind_ret.
  cbn [is_complete_chain] in Hc.
  destruct (decide (b = genesis (configuration node_state))) as [->|Hng].
  { eexists. split; [done|]. split; [done|]. split; [done|]. split; [cbn; lia|].
    intros [|i] x y Hx Hy; discriminate Hy. }
  destruct (has_parent b node_state); cbn [negb] in Hc; [|discriminate].
  apply bind_Ok in Hc as (p & Hget & Hrec).
  destruct (IH p Hrec) as (l & Hl & Hhd & Hlast & Hlen & Hlinks).
  rewrite Hget, bind_ret, Hl, bind_ret.
  exists (b :: l). split; [done|]. split; [done|].
  destruct l as [|p' l]; [discriminate Hhd|]. injection Hhd as ->.
  split; [exact Hlast|]. split; [cbn in *; lia|].
  intros [|i] x y Hx Hy.
  - injection Hx as <-. injection Hy as <-. done.
  - by apply (Hlinks i).
Qed.

(** X4. On a block whose chain is found incomplete, the precondition of
    [get_blockchain] is breached and the call raises [KeyError] at the block
    whose parent is missing. *)
Theorem get_blockchain_incomplete (fuel : nat) (b : Block) (node_state : CommonNodeState) :
  is_complete_chain fuel b node_state = Ok false →
  get_blockchain fuel b node_state = Raise KeyError.
Proof.
  revert b. induction fuel as [|fuel IH]; intros b Hc; [discriminate|].
  cbn [get_blockchain]. rewrite Hc, bind_ret.
  cbn [is_complete_chain] in Hc.
  destruct (decide (b = genesis (configuration node_state))); [discriminate|].
  destruct (has_parent b node_state) eqn:Hp; cbn [negb] in Hc.
  - apply bind_Ok in Hc as (p & Hget & Hrec).
    by rewrite Hget, bind_ret, (IH p Hrec).
  - unfold has_parent in Hp. apply get_block_from_hash_absent in Hp.
    unfold get_parent. by rewrite Hp.
Qed.
End Walks.

Lemma is_ancestor_descendant_relationship_trans_witness :
  is_ancestor_descendant_relationship (2 + 2) G0 C2 chain_state = Ok true.
Proof.
  apply (is_ancestor_descendant_relationship_trans 2 2 G0 A1 C2 chain_state);
    vm_compute; reflexivity.
Defined.

Lemma is_complete_chain_along_ancestors_witness :
  (is_complete_chain 3 C2 chain_state = Ok true →
   is_complete_chain 3 A1 chain_state = Ok true) ∧
  (is_complete_chain 3 A1 chain_state = Ok true →
   is_complete_chain (3 + 2) C2 chain_state = Ok true).
Proof.
  apply (is_complete_chain_along_ancestors 3 2 A1 C2 chain_state).
  vm_compute. reflexivity.
Defined.

Lemma get_blockchain_complete_witness :
  ∃ l, get_blockchain 3 C2 chain_state = Ok l ∧
       head l = Some C2 ∧
       last l = Some (genesis (configuration chain_state)) ∧
       (length l ≤ 3)%nat ∧
       ∀ i x y, l !! i = Some x → l !! S i = Some y →
                x ≠ genesis (configuration chain_state) ∧ get_parent x chain_state = Ok y.
Proof.
  apply (get_blockchain_complete 3 C2 chain_state). vm_compute. reflexivity.
Defined.

Lemma get_blockchain_incomplete_witness :
  get_blockchain 3 C2 orphan_state = Raise KeyError.
Proof.
  apply (get_blockchain_incomplete 3 C2 orphan_state). vm_compute. reflexivity.
Defined.

(** X5. [get_block_k_deep] reads the chain of [get_blockchain]: on a block
    whose chain is returned as [l] it returns the element [k] places down
    [l], the block itself for [k <= 0] and the genesis block when [l] has no
    more than [k] elements. *)
Theorem get_block_k_deep_on_blockchain (fuel : nat) (b : Block) (k : Z)
    (node_state : RLMD.NodeState) (l : list Block) :
  get_blockchain fuel b (RLMD.common node_state) = Ok l →
  RLMD.get_block_k_deep fuel b k node_state
  = Ok (nth (Z.to_nat k) l (genesis (configuration (RLMD.common node_state)))).
Proof.
  revert b k l. induction fuel as [|fuel IH]; intros b k l; [discriminate|].
  cbn [get_blockchain RLMD.get_block_k_deep].
  intros (complete & Hc & Hl)%bind_Ok. rewrite Hc, bind_ret.
  destruct (decide (b = genesis (configuration (RLMD.common node_state)))) as [->|Hng].
  - injection Hl as <-. rewrite bool_decide_eq_true_2, orb_true_r by done.
    by destruct (Z.to_nat k) as [|[|n]].
  - apply bind_Ok in Hl as (p & Hget & (rest & Hrest & [= <-])%bind_Ok).
    rewrite bool_decide_eq_false_2, orb_false_r by done.
    destruct (Z.leb_spec k 0) as [Hk|Hk].
    + by replace (Z.to_nat k) with 0%nat by lia.
    + rewrite Hget, bind_ret, (IH p (k - 1) rest Hrest).
      by replace (Z.to_nat k) with (S (Z.to_nat (k - 1))) by lia.
Qed.

Lemma get_block_k_deep_on_blockchain_witness :
  RLMD.get_block_k_deep 3 C2 1 chain_node_state
  = Ok (nth (Z.to_nat 1) [C2; A1; G0] (genesis (configuration chain_state))).
Proof.
  apply (get_block_k_deep_on_blockchain 3 C2 1 chain_node_state [C2; A1; G0]).
  vm_compute. reflexivity.
Defined.

(** * Further properties of the fork choice *)

Section Heads.
Context {stubs : Stubs}.

(** X6. The block returned by [find_head_from] has no child in view: the
    walk of [rlmd/helpers.py] stops at leaves only. *)
Theorem rlmd_find_head_from_leaf (fuel : nat) (block head : Block)
    (votes : gset SignedVoteMessage) (node_state : RLMD.NodeState)
    (validatorBalances : ValidatorBalances) :
  RLMD.find_head_from fuel block votes node_state validatorBalances = Ok head →
  RLMD.get_children head node_state = ∅.
Proof.
  revert block. induction fuel as [|fuel IH]; intros block; [discriminate|].
  cbn [RLMD.find_head_from].
  destruct (Nat.eqb_spec (size (RLMD.get_children block node_state)) 0) as [Hz|Hnz].
  - intros [= <-]. by apply size_empty_inv, leibniz_equiv in Hz.
  - intros (ws & Hws & Hrest)%bind_Ok.
    destruct (RLMD.max_by_weight ws) as [best|]; [|discriminate].
    by apply IH in Hrest.
Qed.

Lemma elem_of_get_children (child block : Block) (node_state : RLMD.NodeState) :
  child ∈ RLMD.get_children block node_state ↔
  parent_hash child = block_hash block ∧ in_view child (RLMD.common node_state).
Proof.
  unfold RLMD.get_children, get_all_blocks, in_view.
  rewrite elem_of_pset_filter, bool_decide_eq_true, elem_of_map_img. done.
Qed.

(** One more step at the top of an ancestor walk. *)
Lemma is_ancestor_descendant_relationship_extend (fuel : nat) (a b d : Block)
    (node_state : CommonNodeState) :
  b ≠ genesis (configuration node_state) →
  has_parent b node_state = true →
  get_parent b node_state = Ok a →
  is_ancestor_descendant_relationship fuel b d node_state = Ok true →
  is_ancestor_descendant_relationship (S fuel) a d node_state = Ok true.
Proof.
  intros Hng Hp Hget. revert d. induction fuel as [|fuel IH]; intros d Hbd; [discriminate|].
  cbn [is_ancestor_descendant_relationship].
  destruct (decide (a = d)); [done|].
  destruct (decide (b = d)) as [<-|Hne].
  - destruct (decide (b = genesis (configuration node_state))); [done|].
    rewrite Hp, andM_true_l, Hget, bind_ret.
    destruct fuel; cbn [is_ancestor_descendant_relationship];
      by destruct (decide (a = a)).
  - apply is_ancestor_descendant_relationship_step in Hbd
      as (Hdg & Hdp & p & Hdget & Hrec); [|done].
    destruct (decide (d = genesis (configuration node_state))); [done|].
    rewrite Hdp, andM_true_l, Hdget, bind_ret.
    change (is_ancestor_descendant_relationship (S fuel) a p node_state = Ok true).
    by apply IH.
Qed.

(** X7. In a view that files every block under its hash and in which the
    genesis block is nobody's child, the block returned by [find_head_from]
    is a descendant of the block the walk starts from, as
    [is_ancestor_descendant_relationship] computes it. *)
Theorem rlmd_find_head_from_descendant (fuel : nat) (block head : Block)
    (votes : gset SignedVoteMessage) (node_state : RLMD.NodeState)
    (validatorBalances : ValidatorBalances) :
  let c := RLMD.common node_state in
  (∀ h b, view_blocks c !! h = Some b → block_hash b = h) →
  in_view block c →
  (∀ b, genesis (configuration c) ∉ RLMD.get_children b node_state) →
  RLMD.find_head_from fuel block votes node_state validatorBalances = Ok head →
  is_ancestor_descendant_relationship fuel block head c = Ok true.
Proof.
  intros c Hkeyed Hin Hgen. revert block Hin.
  induction fuel as [|fuel IH]; intros block [h Hh]; [discriminate|].
  cbn [RLMD.find_head_from].
  destruct (Nat.eqb_spec (size (RLMD.get_children block node_state)) 0) as [Hz|Hnz].
  - intros [= <-]. cbn [is_ancestor_descendant_relationship].
    by destruct (decide (block = block)).
  - intros (ws & Hws & Hrest)%bind_Ok.
    destruct (RLMD.max_by_weight ws) as [best|] eqn:Hbest; [|discriminate].
    apply max_by_weight_spec in Hbest as (w & Hbw & _).
    apply keyed_Ok in Hws.
    apply list_elem_of_lookup in Hbw as [i Hi].
    destruct (Forall2_lookup_r _ _ _ _ _ Hws Hi) as (child & Hc & Heq & _).
    cbn in Heq. subst child.
    assert (best ∈ RLMD.get_children block node_state) as Hchild
      by (apply elem_of_elements; by eapply list_elem_of_lookup_2).
    assert (best ≠ genesis (configuration c)) as Hng
      by (intros ->; by apply Hgen in Hchild).
    apply elem_of_get_children in Hchild as [Hph Hbest_in].
    rewrite (Hkeyed _ _ Hh) in Hph.
    apply (is_ancestor_descendant_relationship_extend fuel block best head c Hng).
    + unfold has_parent. rewrite Hph. apply has_block_hash_true. eauto.
    + unfold get_parent. rewrite Hph. by apply get_block_from_hash_Ok.
    + by apply IH.
Qed.
End Heads.

Lemma rlmd_find_head_from_leaf_witness :
  @RLMD.get_children accepting_stubs A1 lonely_child_state = ∅.
Proof.
  apply (@rlmd_find_head_from_leaf accepting_stubs 10 G0 A1 head_votes
           lonely_child_state three_balances).
  vm_compute. reflexivity.
Defined.

Lemma two_block_view (h : Hash) (b : Block) :
  ({[ "g" := G0; "a" := A1 ]} : BlockView) !! h = Some b →
  (h = "g" ∧ b = G0) ∨ (h = "a" ∧ b = A1).
Proof.
  intros [[<- <-]|[_ [<- <-]%lookup_singleton_Some]]%lookup_insert_Some; auto.
Qed.

Lemma rlmd_find_head_from_descendant_witness :
  is_ancestor_descendant_relationship 10 G0 A1 (RLMD.common lonely_child_state) = Ok true.
Proof.
  apply (@rlmd_find_head_from_descendant accepting_stubs 10 G0 A1 head_votes
           lonely_child_state three_balances).
  - intros h b Hb. cbn in Hb.
    by apply two_block_view in Hb as [[-> ->]|[-> ->]].
  - by exists "g".
  - intros b [Hph _]%elem_of_get_children. cbn in Hph.
    destruct (slot b =? 0); [discriminate|]. destruct (slot b =? 1); discriminate.
  - vm_compute. reflexivity.
Defined.

(** * Further properties of the vote filters *)

Lemma lmd_inv_step (seen : list SignedVoteMessage)
    (lmd : gmap NodeIdentity SignedVoteMessage) (v : SignedVoteMessage) :
  lmd_inv seen lmd → lmd_inv (seen ++ [v]) (RLMD.lmd_step lmd v).
Proof.
  intros [Hkeys Hmax]. unfold RLMD.lmd_step.
  assert (Hlast : v ∈ seen ++ [v])
    by (apply elem_of_app; right; by apply list_elem_of_singleton).
  assert (Hold : ∀ n w, lmd !! n = Some w → sender w = n ∧ w ∈ seen ++ [v]).
  { intros n w Hw. destruct (Hkeys n w Hw). split; [done|].
    apply elem_of_app. by left. }
  assert (Hnew : ∀ n w, <[sender v := v]> lmd !! n = Some w →
                        sender w = n ∧ w ∈ seen ++ [v]).
  { intros n w [[<- <-]|[_ Hw]]%lookup_insert_Some; [done | by apply Hold]. }
  destruct (lmd !! sender v) as [old|] eqn:Hsender.
  - destruct (Z.ltb_spec (vm_slot (message old)) (vm_slot (message v))) as [Hlt|Hge].
    + split; [exact Hnew|].
      intros w [Hw|Hw%list_elem_of_singleton]%elem_of_app.
      * destruct (Hmax w Hw) as (w' & Hw' & Hle).
        destruct (decide (sender v = sender w)) as [Heq|Hne].
        -- exists v. rewrite <- Heq, lookup_insert_eq. split; [done|].
           rewrite <- Heq, Hsender in Hw'. injection Hw' as <-. lia.
        -- exists w'. by rewrite lookup_insert_ne.
      * subst w. exists v. rewrite lookup_insert_eq. split; [done | lia].
    + split; [exact Hold|].
      intros w [Hw|Hw%list_elem_of_singleton]%elem_of_app; [by apply Hmax|].
      subst w. exists old. split; [done | lia].
  - split; [exact Hnew|].
    intros w [Hw|Hw%list_elem_of_singleton]%elem_of_app.
    + destruct (Hmax w Hw) as (w' & Hw' & Hle).
      exists w'. split; [|done]. rewrite lookup_insert_ne; [done|].
      intros Heq. rewrite <- Heq, Hsender in Hw'. discriminate.
    + subst w. exists v. rewrite lookup_insert_eq. split; [done | lia].
Qed.

Lemma lmd_inv_foldl (l seen : list SignedVoteMessage)
    (lmd : gmap NodeIdentity SignedVoteMessage) :
  lmd_inv seen lmd → lmd_inv (seen ++ l) (foldl RLMD.lmd_step lmd l).
Proof.
  revert seen lmd. induction l as [|v l IH]; intros seen lmd Hinv; cbn.
  - by rewrite app_nil_r.
  - replace (seen ++ v :: l) with ((seen ++ [v]) ++ l) by (by rewrite <- app_assoc).
    by apply IH, lmd_inv_step.
Qed.

(** X8. [filter_out_non_LMD_GHOST_votes] returns votes of its input, at
    most one per sender, and for every vote of the input it returns a vote
    of the same sender with a slot at least as high. *)
Theorem filter_out_non_LMD_GHOST_votes_latest (votes : gset SignedVoteMessage) :
  let r := RLMD.filter_out_non_LMD_GHOST_votes votes in
  r ⊆ votes ∧
  (∀ v1 v2, v1 ∈ r → v2 ∈ r → sender v1 = sender v2 → v1 = v2) ∧
  (∀ v, v ∈ votes →
        ∃ v', v' ∈ r ∧ sender v' = sender v ∧
              vm_slot (message v) ≤ vm_slot (message v')).
Proof.
  intros r. unfold r, RLMD.filter_out_non_LMD_GHOST_votes.
  assert (lmd_inv [] ∅) as Hinv0.
  { split; [intros n v Hv; by rewrite lookup_empty in Hv|].
    intros v Hv. by apply elem_of_nil in Hv. }
  pose proof (lmd_inv_foldl (elements votes) [] ∅ Hinv0) as [Hkeys Hmax].
  cbn [app] in Hkeys, Hmax.
  set (lmd := foldl RLMD.lmd_step ∅ (elements votes)) in *.
  split; [|split].
  - intros v [n Hn]%elem_of_map_img.
    destruct (Hkeys n v Hn) as [_ Hv]. by apply elem_of_elements.
  - intros v1 v2 [n1 H1]%elem_of_map_img [n2 H2]%elem_of_map_img Hs.
    destruct (Hkeys _ _ H1) as [<- _]. destruct (Hkeys _ _ H2) as [<- _].
    rewrite Hs in H1. congruence.
  - intros v Hv%elem_of_elements.
    destruct (Hmax v Hv) as (v' & Hv' & Hle).
    exists v'. split; [apply elem_of_map_img; eauto|].
    destruct (Hkeys _ _ Hv') as [Hs _]. done.
Qed.

(** X9. Among the votes of the view that [filter_out_GHOST_equivocating_votes]
    keeps, no two votes of one sender for one slot name different heads. *)
Theorem filter_out_GHOST_equivocating_votes_consistent (votes : gset SignedVoteMessage)
    (node_state : RLMD.NodeState) (v1 v2 : SignedVoteMessage) :
  votes ⊆ view_votes (RLMD.common node_state) →
  v1 ∈ RLMD.filter_out_GHOST_equivocating_votes votes node_state →
  v2 ∈ RLMD.filter_out_GHOST_equivocating_votes votes node_state →
  sender v1 = sender v2 →
  vm_slot (message v1) = vm_slot (message v2) →
  head_hash (message v1) = head_hash (message v2).
Proof.
  unfold RLMD.filter_out_GHOST_equivocating_votes.
  intros Hsub [Hn1 Hv1]%elem_of_pset_filter [_ Hv2]%elem_of_pset_filter Hs Hslot.
  apply negb_true_iff in Hn1. unfold RLMD.is_equivocating_GHOST_vote in Hn1.
  apply negb_false_iff in Hn1. unfold pset_is_empty in Hn1.
  apply bool_decide_eq_true in Hn1.
  destruct (decide (head_hash (message v1) = head_hash (message v2))) as [|Hne]; [done|].
  exfalso.
  assert (v2 ∈ (∅ : gset SignedVoteMessage)) as Hin; [|by apply not_elem_of_empty in Hin].
  rewrite <- Hn1. apply elem_of_pset_filter. split; [|by apply Hsub].
  rewrite !andb_true_iff, Z.eqb_eq, !bool_decide_eq_true. auto.
Qed.

Lemma filter_out_GHOST_equivocating_votes_consistent_witness :
  head_hash (message (vote_for 1 "a" gcp0 target_a "v2"))
  = head_hash (message (vote_for 1 "a" gcp0 target_g "v2")).
Proof.
  apply (filter_out_GHOST_equivocating_votes_consistent
           (view_votes (RLMD.common equivocating_view)) equivocating_view
           (vote_for 1 "a" gcp0 target_a "v2") (vote_for 1 "a" gcp0 target_g "v2")).
  - done.
  - vm_compute. reflexivity.
  - vm_compute. reflexivity.
  - reflexivity.
  - reflexivity.
Defined.

(** * Further properties of justification and finalization *)

Lemma foldl_pick {A K : Type} (lt : K → K → bool) (key : A → K) (l : list A) (x : A) :
  let best := foldl (λ best y, if lt (key best) (key y) then y else best) x l in
  best = x ∨ best ∈ l.
Proof.
  revert x. induction l as [|y l IH]; intros x; cbn; [by left|].
  destruct (IH (if lt (key x) (key y) then y else x)) as [Heq|Hin].
  - rewrite Heq. destruct (lt (key x) (key y)); [right; left | by left].
  - right. by right.
Qed.

Lemma pset_max_elem {A K : Type} `{Countable A} (lt : K → K → bool) (key : A → K)
    (s : gset A) (c : A) :
  pset_max lt key s = Some c → c ∈ s.
Proof.
  unfold pset_max, list_max_by.
  destruct (elements s) as [|x l] eqn:Hel; [discriminate|]. intros [= <-].
  apply elem_of_elements. rewrite Hel.
  destruct (foldl_pick lt key l x) as [->|?]; [left | by right].
Qed.

Section Checkpoints.
Context {stubs : Stubs}.

Lemma elem_of_get_justified_checkpoints (fuel : nat) (node_state : CommonNodeState)
    (js : gset Checkpoint) (c : Checkpoint) :
  get_justified_checkpoints fuel node_state = Ok js →
  c ∈ js ↔
  c = genesis_checkpoint node_state ∨
  ((∃ v, v ∈ view_votes node_state ∧ ffg_target (message v) = c) ∧
   is_justified_checkpoint fuel c node_state = Ok true).
Proof.
  unfold get_justified_checkpoints, filter_out_non_justified_checkpoint.
  intros (fs & Hfs & [= <-])%bind_Ok.
  destruct (pset_filter_r_Ok _ _ _ Hfs) as [_ Hmem].
  rewrite elem_of_union, elem_of_singleton, Hmem.
  unfold get_set_FFG_targets, pset_map_to_pset. rewrite elem_of_map.
  split.
  - intros [[(v & -> & Hv) Hj]| ->]; [right; eauto | by left].
  - intros [->|[(v & Hv & <-) Hj]]; [by right | left; eauto].
Qed.

Lemma elem_of_get_finalized_checkpoints (fuel : nat) (node_state : CommonNodeState)
    (fs : gset Checkpoint) (c : Checkpoint) :
  get_finalized_checkpoints fuel node_state = Ok fs →
  c ∈ fs ↔
  c = genesis_checkpoint node_state ∨
  ((∃ v, v ∈ view_votes node_state ∧ ffg_target (message v) = c) ∧
   is_finalized_checkpoint fuel c node_state = Ok true).
Proof.
  unfold get_finalized_checkpoints, filter_out_non_finalized_checkpoint.
  intros (gs & Hgs & [= <-])%bind_Ok.
  destruct (pset_filter_r_Ok _ _ _ Hgs) as [_ Hmem].
  rewrite elem_of_union, elem_of_singleton, Hmem.
  unfold get_set_FFG_targets, pset_map_to_pset. rewrite elem_of_map.
  split.
  - intros [[(v & -> & Hv) Hj]| ->]; [right; eauto | by left].
  - intros [->|[(v & Hv & <-) Hj]]; [by right | left; eauto].
Qed.

Lemma is_finalized_checkpoint_justified (fuel : nat) (c : Checkpoint)
    (node_state : CommonNodeState) :
  is_finalized_checkpoint fuel c node_state = Ok true →
  is_justified_checkpoint fuel c node_state = Ok true.
Proof.
  unfold is_finalized_checkpoint. intros (j & Hj & Hrest)%bind_Ok.
  by destruct j.
Qed.

(** X11. Whatever is finalized is justified: the set returned by
    [get_finalized_checkpoints] is included in the one returned by
    [get_justified_checkpoints], and the greatest finalized checkpoint does
    not lie above the greatest justified one in [chkp_slot]. *)
Theorem finalized_checkpoints_are_justified (fuel : nat) (node_state : CommonNodeState)
    (fs js : gset Checkpoint) :
  get_finalized_checkpoints fuel node_state = Ok fs →
  get_justified_checkpoints fuel node_state = Ok js →
  fs ⊆ js ∧
  ∀ f j, get_greatest_finalized_checkpoint fuel node_state = Ok f →
         get_greatest_justified_checkpoint fuel node_state = Ok j →
         f ∈ js ∧ chkp_slot f ≤ chkp_slot j.
Proof.
  intros Hfs Hjs.
  assert (Hsub : fs ⊆ js).
  { intros c Hc.
    apply (elem_of_get_finalized_checkpoints _ _ _ _ Hfs) in Hc.
    apply (elem_of_get_justified_checkpoints _ _ _ _ Hjs).
    destruct Hc as [->|[Hv Hfin]]; [by left|].
    right. split; [done|]. by apply is_finalized_checkpoint_justified. }
  split; [done|]. intros f j Hf Hj.
  unfold get_greatest_finalized_checkpoint in Hf.
  unfold get_greatest_justified_checkpoint in Hj.
  rewrite Hfs, bind_ret in Hf. rewrite Hjs, bind_ret in Hj.
  destruct (pset_max Z.ltb chkp_slot fs) as [f'|] eqn:Hmf; [|discriminate].
  destruct (pset_max tuple_lt checkpoint_key js) as [j'|] eqn:Hmj; [|discriminate].
  injection Hf as ->. injection Hj as ->.
  apply pset_max_elem in Hmf. apply pset_max_greatest in Hmj as [_ Hge].
  assert (f ∈ js) as Hin by auto.
  split; [done|].
  specialize (Hge f Hin). unfold tuple_le, checkpoint_key in Hge. cbn in Hge. lia.
Qed.

(** X12. [get_greatest_justified_checkpoint] returns the genesis checkpoint
    or the target of a vote in view that [is_justified_checkpoint] accepts,
    and never a checkpoint below the genesis checkpoint in
    [(chkp_slot, block_slot)]. *)
Theorem greatest_justified_checkpoint_is_justified (fuel : nat)
    (node_state : CommonNodeState) (c : Checkpoint) :
  get_greatest_justified_checkpoint fuel node_state = Ok c →
  (c = genesis_checkpoint node_state ∨
   ((∃ v, v ∈ view_votes node_state ∧ ffg_target (message v) = c) ∧
    is_justified_checkpoint fuel c node_state = Ok true)) ∧
  tuple_le (0, 0) (checkpoint_key c).
Proof.
  unfold get_greatest_justified_checkpoint. intros (js & Hjs & Hmax)%bind_Ok.
  destruct (pset_max tuple_lt checkpoint_key js) as [m|] eqn:Hm; [|discriminate].
  injection Hmax as ->.
  apply pset_max_greatest in Hm as [Hin Hge]. split.
  - by apply (elem_of_get_justified_checkpoints _ _ _ _ Hjs).
  - apply (Hge (genesis_checkpoint node_state)).
    apply (elem_of_get_justified_checkpoints _ _ _ _ Hjs). by left.
Qed.
End Checkpoints.

Lemma finalized_checkpoints_are_justified_witness :
  ({[ gcp0 ]} : gset Checkpoint) ⊆ {[ target_a; gcp0 ]} ∧
  ∀ f j, @get_greatest_finalized_checkpoint accepting_stubs 10 voted_state = Ok f →
         @get_greatest_justified_checkpoint accepting_stubs 10 voted_state = Ok j →
         f ∈ ({[ target_a; gcp0 ]} : gset Checkpoint) ∧ chkp_slot f ≤ chkp_slot j.
Proof.
  apply (@finalized_checkpoints_are_justified accepting_stubs 10 voted_state);
    vm_compute; reflexivity.
Defined.

Lemma greatest_justified_checkpoint_is_justified_witness :
  (target_a = @genesis_checkpoint accepting_stubs voted_state ∨
   ((∃ v, v ∈ view_votes voted_state ∧ ffg_target (message v) = target_a) ∧
    @is_justified_checkpoint accepting_stubs 10 target_a voted_state = Ok true)) ∧
  tuple_le (0, 0) (checkpoint_key target_a).
Proof.
  apply (@greatest_justified_checkpoint_is_justified accepting_stubs 10 voted_state).
  vm_compute. reflexivity.
Defined.

(** * Further properties of the weights *)

Lemma validator_set_weight_disj_union (S1 S2 : gset NodeIdentity) (vb : ValidatorBalances) :
  S1 ## S2 →
  validator_set_weight (S1 ∪ S2) vb = validator_set_weight S1 vb + validator_set_weight S2 vb.
Proof.
  intros Hdisj. unfold validator_set_weight, pset_map.
  assert (dom vb ∩ (S1 ∪ S2) = (dom vb ∩ S1) ∪ (dom vb ∩ S2)) as -> by set_solver.
  assert (Hd : dom vb ∩ S1 ## dom vb ∩ S2) by set_solver.
  rewrite (pset_sum_perm _ _ (fmap_Permutation _ _ _ (elements_disj_union _ _ Hd))).
  by rewrite fmap_app, pset_sum_app.
Qed.

Lemma validator_set_weight_incl_excl (S1 S2 : gset NodeIdentity) (vb : ValidatorBalances) :
  validator_set_weight S1 vb + validator_set_weight S2 vb
  = validator_set_weight (S1 ∪ S2) vb + validator_set_weight (S1 ∩ S2) vb.
Proof.
  assert (S1 = (S1 ∖ S2) ∪ (S1 ∩ S2)) as H1.
  { apply set_eq. intros x. rewrite elem_of_union, elem_of_difference, elem_of_intersection.
    destruct (decide (x ∈ S2)); tauto. }
  assert (S1 ∪ S2 = (S1 ∖ S2) ∪ S2) as H2.
  { apply set_eq. intros x. rewrite !elem_of_union, elem_of_difference.
    destruct (decide (x ∈ S2)); tauto. }
  rewrite H2, (validator_set_weight_disj_union (S1 ∖ S2) S2) by set_solver.
  rewrite H1 at 1.
  rewrite (validator_set_weight_disj_union (S1 ∖ S2) (S1 ∩ S2)) by set_solver.
  lia.
Qed.

(** X13. With non-negative stakes, two sets of validators that each pass
    the supermajority test [weight * 3 >= total * 2] share validators
    holding at least a third of the total stake. *)
Theorem supermajorities_intersect (S1 S2 : gset NodeIdentity) (vb : ValidatorBalances) :
  (∀ n w, vb !! n = Some w → 0 ≤ w) →
  supermajority (validator_set_weight S1 vb) (validator_set_weight (dom vb) vb) = true →
  supermajority (validator_set_weight S2 vb) (validator_set_weight (dom vb) vb) = true →
  validator_set_weight (dom vb) vb ≤ validator_set_weight (S1 ∩ S2) vb * 3.
Proof.
  intros Hnn H1%supermajority_spec H2%supermajority_spec.
  pose proof (validator_set_weight_incl_excl S1 S2 vb) as Hie.
  assert (validator_set_weight (S1 ∪ S2) vb ≤ validator_set_weight (dom vb) vb) as Hle.
  { assert (validator_set_weight (S1 ∪ S2) vb
            = validator_set_weight (dom vb ∩ (S1 ∪ S2)) vb) as ->.
    { unfold validator_set_weight.
      by replace (dom vb ∩ (dom vb ∩ (S1 ∪ S2))) with (dom vb ∩ (S1 ∪ S2)) by set_solver. }
    apply validator_set_weight_mono; [set_solver | done]. }
  lia.
Qed.

Lemma supermajorities_intersect_witness :
  validator_set_weight (dom three_balances) three_balances
  ≤ validator_set_weight ({[ "v1"; "v2" ]} ∩ {[ "v2"; "v3" ]}) three_balances * 3.
Proof.
  apply (supermajorities_intersect {[ "v1"; "v2" ]} {[ "v2"; "v3" ]} three_balances).
  - intros n w. unfold three_balances.
    intros [[_ <-]|[_ [[_ <-]|[_ [_ <-]%lookup_singleton_Some]]%lookup_insert_Some]]
      %lookup_insert_Some; lia.
  - vm_compute. reflexivity.
  - vm_compute. reflexivity.
Defined.

Lemma validator_set_weight_empty (S : gset NodeIdentity) (vb : ValidatorBalances) :
  dom vb ∩ S = ∅ → validator_set_weight S vb = 0.
Proof.
  intros Hempty. unfold validator_set_weight, pset_map.
  by rewrite Hempty, elements_empty.
Qed.

Section Support.
Context {stubs : Stubs}.

(** X14. A justified checkpoint other than genesis, in a validator set of
    positive total stake, rests on a vote in view: a valid vote by a
    validator of that set, whose target has the checkpoint's [chkp_slot] and
    whose source is a justified checkpoint of strictly smaller [chkp_slot]. *)
Theorem justified_checkpoint_has_justified_source (fuel : nat) (C : Checkpoint)
    (node_state : CommonNodeState) (b : Block) :
  is_justified_checkpoint (S fuel) C node_state = Ok true →
  C ≠ genesis_checkpoint node_state →
  get_block_from_hash (cp_block_hash C) node_state = Ok b →
  0 < validator_set_weight
        (dom (get_validator_set_for_slot b (block_slot C) node_state))
        (get_validator_set_for_slot b (block_slot C) node_state) →
  ∃ v, v ∈ view_votes node_state ∧
       is_validator (sender v) (get_validator_set_for_slot b (block_slot C) node_state)
         = true ∧
       valid_FFG_vote fuel v node_state = Ok true ∧
       chkp_slot (ffg_target (message v)) = chkp_slot C ∧
       chkp_slot (ffg_source (message v)) < chkp_slot C ∧
       is_justified_checkpoint fuel (ffg_source (message v)) node_state = Ok true.
Proof.
  intros Hj Hng Hb Htot. cbn [is_justified_checkpoint] in Hj.
  destruct (decide (C = genesis_checkpoint node_state)); [done|].
  destruct (negb (has_block_hash (cp_block_hash C) node_state)); [discriminate|].
  rewrite Hb, !bind_ret in Hj.
  apply bind_Ok in Hj as (complete & _ & Hj).
  destruct (negb complete); [discriminate|].
  apply bind_Ok in Hj as (S0 & HS & [= Hsuper%supermajority_spec]).
  set (vb := get_validator_set_for_slot b (block_slot C) node_state) in *.
  destruct (decide (dom vb ∩ S0 = ∅)) as [Hempty|Hne].
  { rewrite (validator_set_weight_empty _ _ Hempty) in Hsuper. lia. }
  apply set_choose_L in Hne as [who [Hdom Hwho]%elem_of_intersection].
  unfold get_validators_in_FFG_support_with, filter_out_FFG_votes_not_in_support_with in HS.
  apply bind_Ok in HS as (vs & Hvs & [= <-]).
  destruct (pset_filter_r_Ok _ _ _ Hvs) as [_ Hmem].
  unfold pset_map_to_pset in Hwho.
  apply elem_of_map in Hwho as (v & -> & [Hv Hsupp]%Hmem).
  unfold is_FFG_vote_in_support_with in Hsupp.
  rewrite !andM_true in Hsupp.
  destruct Hsupp as (Hvalid & [= Htgt%Z.eqb_eq] & _ & _ & Hsrc).
  exists v. split; [done|]. split.
  { unfold is_validator. apply bool_decide_eq_true. by apply elem_of_dom. }
  split; [done|]. split; [done|]. split; [|done].
  apply valid_FFG_vote_source_below_target in Hvalid. lia.
Qed.
End Support.

Lemma justified_checkpoint_has_justified_source_witness :
  ∃ v, v ∈ view_votes voted_state ∧
       is_validator (sender v)
         (@get_validator_set_for_slot accepting_stubs A1 (block_slot target_a) voted_state)
         = true ∧
       @valid_FFG_vote accepting_stubs 9 v voted_state = Ok true ∧
       chkp_slot (ffg_target (message v)) = chkp_slot target_a ∧
       chkp_slot (ffg_source (message v)) < chkp_slot target_a ∧
       @is_justified_checkpoint accepting_stubs 9 (ffg_source (message v)) voted_state
         = Ok true.
Proof.
  apply (@justified_checkpoint_has_justified_source accepting_stubs 9 target_a
           voted_state A1).
  - vm_compute. reflexivity.
  - discriminate.
  - reflexivity.
  - vm_compute. reflexivity.
Defined.

(** * Further properties of [ga_based/helpers.py] *)

(** X15. A vote first received in an earlier slot than the current one,
    and before the MERGE phase of its slot of receipt, is timely; a vote
    first received in the current slot or later is not. *)
Theorem ga_vote_timeliness (vote : SignedVoteMessage) (node_state : GaBased.NodeState)
    (t s_received s_now : Z) :
  0 < delta (GaBased.configuration node_state) →
  GaBased.vote_receival_times node_state !! vote = Some t →
  GaBased.get_slot_from_time t node_state = Ok s_received →
  GaBased.get_slot node_state = Ok s_now →
  (s_received < s_now → GaBased.get_phase_from_time t node_state ≠ Ok MERGE →
   GaBased.is_head_vote_received_timely vote node_state = Ok true) ∧
  (s_now ≤ s_received →
   GaBased.is_head_vote_received_timely vote node_state = Ok false).
Proof.
  intros Hd Ht Hsr Hsn.
  unfold GaBased.is_head_vote_received_timely. rewrite Ht, Hsn, bind_ret.
  unfold GaBased.get_slot, GaBased.get_slot_from_time, GaBased.get_phase_from_time in *.
  set (d := delta (GaBased.configuration node_state)) in *.
  destruct (Z.eqb_spec (4 * d) 0) as [|_]; [lia|].
  injection Hsr as <-. injection Hsn as <-.
  assert (Hmod : 0 ≤ t mod (4 * d) < 4 * d) by (apply Z.mod_pos_bound; lia).
  pose proof (Z.div_mod t (4 * d) ltac:(lia)) as Hdm.
  split.
  - intros Hlt Hphase.
    assert (t mod (4 * d) < 3 * d) as Hoff.
    { destruct (Z.leb_spec (3 * d) (t mod (4 * d))); [by destruct Hphase | done]. }
    f_equal. apply Z.leb_le. nia.
  - intros Hle. f_equal. apply Z.leb_gt. nia.
Qed.

Lemma ga_vote_timeliness_witness :
  (1 < 2 → GaBased.get_phase_from_time 6 timed_state ≠ Ok MERGE →
   GaBased.is_head_vote_received_timely (expiry_vote 1) timed_state = Ok true) ∧
  (2 ≤ 1 →
   GaBased.is_head_vote_received_timely (expiry_vote 1) timed_state = Ok false).
Proof.
  apply (ga_vote_timeliness (expiry_vote 1) timed_state 6 1 2).
  - cbn. lia.
  - vm_compute. reflexivity.
  - reflexivity.
  - reflexivity.
Defined.

(** X16. [filter_out_late_received_head_votes] raises [KeyError] as soon as
    one of the votes has no time of receipt on record. *)
Theorem ga_filter_late_votes_without_time (votes : gset SignedVoteMessage)
    (node_state : GaBased.NodeState) (vote : SignedVoteMessage) :
  delta (GaBased.configuration node_state) ≠ 0 →
  vote ∈ votes →
  GaBased.vote_receival_times node_state !! vote = None →
  GaBased.filter_out_late_received_head_votes votes node_state = Raise KeyError.
Proof.
  intros Hd Hin Hnone. unfold GaBased.filter_out_late_received_head_votes.
  destruct (pset_filter_r _ votes) as [r|e] eqn:Hr.
  - destruct (pset_filter_r_Ok _ _ _ Hr) as [Hall _].
    destruct (Hall vote Hin) as [b Hb].
    unfold GaBased.is_head_vote_received_timely in Hb. by rewrite Hnone in Hb.
  - apply pset_filter_r_raises in Hr as (x & _ & Hx).
    unfold GaBased.is_head_vote_received_timely, GaBased.get_slot,
      GaBased.get_slot_from_time in Hx.
    destruct (GaBased.vote_receival_times node_state !! x); [|congruence].
    destruct (Z.eqb_spec (4 * delta (GaBased.configuration node_state)) 0); [lia|].
    discriminate Hx.
Qed.

Lemma ga_filter_late_votes_without_time_witness :
  GaBased.filter_out_late_received_head_votes
    {[ expiry_vote 1; expiry_vote 3 ]} timed_state = Raise KeyError.
Proof.
  apply (ga_filter_late_votes_without_time _ timed_state (expiry_vote 3)).
  - discriminate.
  - apply elem_of_union. right. by apply elem_of_singleton.
  - vm_compute. reflexivity.
Defined.

(** * Further properties of [pyspec/beacon_chain.py] *)

(** X17. Within the window that the assertion of [get_block_root] accepts
    for one state, two different slots never read the same cell of
    [block_roots]. *)
Theorem get_block_root_window (state : PySpec.BeaconState) (s1 s2 : Z) (r1 r2 : Hash) :
  PySpec.get_block_root state s1 = Some r1 →
  PySpec.get_block_root state s2 = Some r2 →
  s1 mod PySpec.SLOTS_PER_HISTORICAL_ROOT = s2 mod PySpec.SLOTS_PER_HISTORICAL_ROOT →
  s1 = s2.
Proof.
  unfold PySpec.get_block_root.
  destruct (_ && _) eqn:H1; [|discriminate].
  destruct ((s2 <? _) && _) eqn:H2; [|discriminate].
  intros _ _.
  apply andb_true_iff in H1 as [H1a%Z.ltb_lt H1b%Z.leb_le].
  apply andb_true_iff in H2 as [H2a%Z.ltb_lt H2b%Z.leb_le].
  change PySpec.SLOTS_PER_HISTORICAL_ROOT with 131072 in *.
  intros Hmod.
  pose proof (Z.div_mod s1 131072 ltac:(lia)).
  pose proof (Z.div_mod s2 131072 ltac:(lia)).
  lia.
Qed.

Lemma get_block_root_window_witness : 3 = 3.
Proof.
  apply (get_block_root_window ring_state 3 3 "c" "c"); reflexivity.
Defined.

(** * Further properties of the slashing conditions *)

Section Offences.
Context {stubs : Stubs}.

(** X18. [is_slashable_offence] does not depend on the order of its two
    votes, and no vote is an offence with itself. *)
Theorem is_slashable_offence_symmetric (v1 v2 : SignedVoteMessage) :
  is_slashable_offence v1 v2 = is_slashable_offence v2 v1 ∧
  is_slashable_offence v1 v1 = false.
Proof.
  split.
  - apply eq_true_iff_eq. rewrite !is_slashable_offence_spec.
    unfold slashable_offence_spec, equivocation. intuition congruence.
  - apply not_true_iff_false. rewrite is_slashable_offence_spec.
    unfold slashable_offence_spec, equivocation, surrounds, lex_lt.
    intros (_ & _ & [(_ & Hne & _)|[(_ & _ & Hlt)|(_ & _ & Hlt)]]); [done | lia | lia].
Qed.
End Offences.

(** * Further properties of block proposal *)

Section Proposal.
Context {stubs : Stubs}.

(** X19. On a block of a complete chain, [get_votes_included_in_blockchain]
    returns the union of the votes carried by the blocks that
    [get_blockchain] lists. *)
Theorem get_votes_included_in_blockchain_on_chain (fuel : nat) (b : Block)
    (node_state : RLMD.NodeState) (l : list Block) :
  get_blockchain fuel b (RLMD.common node_state) = Ok l →
  RLMD.get_votes_included_in_blockchain fuel b node_state = Ok (⋃ (votes <$> l)).
Proof.
  revert b l. induction fuel as [|fuel IH]; intros b l; [discriminate|].
  cbn [get_blockchain RLMD.get_votes_included_in_blockchain].
  intros (complete & _ & Hl)%bind_Ok.
  destruct (decide (b = genesis (configuration (RLMD.common node_state)))) as [->|Hng].
  - injection Hl as <-. cbn. by rewrite (right_id_L ∅ (∪)).
  - apply bind_Ok in Hl as (p & Hget & (rest & Hrest & [= <-])%bind_Ok).
    unfold get_parent in Hget.
    assert (has_block_hash (parent_hash b) (RLMD.common node_state) = true) as ->.
    { apply has_block_hash_true. exists p. by apply get_block_from_hash_Ok. }
    cbn [negb]. by rewrite Hget, bind_ret, (IH p rest Hrest), bind_ret.
Qed.

End Proposal.

Lemma get_votes_included_in_blockchain_on_chain_witness :
  RLMD.get_votes_included_in_blockchain 3 C2 chain_node_state
  = Ok (⋃ (votes <$> [C2; A1; G0])).
Proof.
  apply (get_votes_included_in_blockchain_on_chain 3 C2 chain_node_state [C2; A1; G0]).
  vm_compute. reflexivity.
Defined.

(** * Further properties of the clock *)

Lemma rlmd_phase_value (t : Z) (node_state : RLMD.NodeState) :
  let d := delta (configuration (RLMD.common node_state)) in
  0 < d →
  ∃ p, RLMD.get_phase_from_time t node_state = Ok p ∧
       d * NodePhase_value p ≤ t mod (4 * d) < d * (NodePhase_value p + 1).
Proof.
  intros d Hd. unfold RLMD.get_phase_from_time. fold d.
  destruct (Z.eqb_spec (4 * d) 0) as [|_]; [lia|].
  pose proof (Z.mod_pos_bound t (4 * d) ltac:(lia)) as Hm.
  destruct (Z.leb_spec (3 * d) (t mod (4 * d)));
    [|destruct (Z.leb_spec (2 * d) (t mod (4 * d)));
      [|destruct (Z.leb_spec d (t mod (4 * d)))]];
    eexists; (split; [reflexivity|]); cbn; lia.
Qed.

(** X21. Time never runs backwards through the schedule: for [delta > 0]
    and times [t1 <= t2] (of either sign), the slot of [t1] is at most the
    slot of [t2], and within one slot the phase of [t1] does not come after
    the phase of [t2]. *)
Theorem clock_monotone (t1 t2 : Z) (node_state : RLMD.NodeState) :
  0 < delta (configuration (RLMD.common node_state)) →
  t1 ≤ t2 →
  ∃ s1 s2 p1 p2,
    RLMD.get_slot_from_time t1 node_state = Ok s1 ∧
    RLMD.get_slot_from_time t2 node_state = Ok s2 ∧
    RLMD.get_phase_from_time t1 node_state = Ok p1 ∧
    RLMD.get_phase_from_time t2 node_state = Ok p2 ∧
    s1 ≤ s2 ∧
    (s1 = s2 → NodePhase_value p1 ≤ NodePhase_value p2).
Proof.
  intros Hd Hle.
  destruct (rlmd_phase_value t1 node_state Hd) as (p1 & Hp1 & Hv1).
  destruct (rlmd_phase_value t2 node_state Hd) as (p2 & Hp2 & Hv2).
  unfold RLMD.get_slot_from_time.
  set (d := delta (configuration (RLMD.common node_state))) in *.
  destruct (Z.eqb_spec (4 * d) 0) as [|_]; [lia|].
  pose proof (Z.div_mod t1 (4 * d) ltac:(lia)) as Hdm1.
  pose proof (Z.div_mod t2 (4 * d) ltac:(lia)) as Hdm2.
  assert (Hslots : t1 / (4 * d) ≤ t2 / (4 * d)) by (apply Z.div_le_mono; lia).
  exists (t1 / (4 * d)), (t2 / (4 * d)), p1, p2.
  split; [reflexivity|]. split; [reflexivity|].
  split; [done|]. split; [done|]. split; [done|].
  intros Heq. rewrite Heq in Hdm1.
  assert (Hoff : t1 mod (4 * d) ≤ t2 mod (4 * d)) by lia.
  nia.
Qed.

Lemma clock_monotone_witness :
  ∃ s1 s2 p1 p2,
    RLMD.get_slot_from_time (-3) (clock_state 2) = Ok s1 ∧
    RLMD.get_slot_from_time 5 (clock_state 2) = Ok s2 ∧
    RLMD.get_phase_from_time (-3) (clock_state 2) = Ok p1 ∧
    RLMD.get_phase_from_time 5 (clock_state 2) = Ok p2 ∧
    s1 ≤ s2 ∧
    (s1 = s2 → NodePhase_value p1 ≤ NodePhase_value p2).
Proof.
  apply (clock_monotone (-3) 5 (clock_state 2)); cbn; lia.
Defined.

(** * Further properties of the GHOST weight *)

Lemma pset_sum_map_mono {A : Type} `{Countable A} (f : A → Z) (X Y : gset A) :
  X ⊆ Y → (∀ x, x ∈ Y → 0 ≤ f x) →
  pset_sum (pset_map f X) ≤ pset_sum (pset_map f Y).
Proof.
  intros HXY Hnn. unfold pset_map.
  assert (Hdisj : X ## Y ∖ X) by set_solver.
  rewrite (union_difference_L X Y HXY).
  rewrite (pset_sum_perm _ _ (fmap_Permutation _ _ _ (elements_disj_union _ _ Hdisj))).
  rewrite fmap_app, pset_sum_app.
  assert (0 ≤ pset_sum (f <$> elements (Y ∖ X))); [|lia].
  apply pset_sum_nonneg. intros x (y & -> & Hy)%list_elem_of_fmap.
  apply elem_of_elements in Hy. apply Hnn. set_solver.
Qed.

Lemma counts_for_block_true (fuel : nat) (block : Block) (node_state : RLMD.NodeState)
    (vb : ValidatorBalances) (v : SignedVoteMessage) :
  RLMD.counts_for_block fuel block node_state vb v = Ok true ↔
  ∃ hb, get_block_from_hash (head_hash (message v)) (RLMD.common node_state) = Ok hb ∧
        is_ancestor_descendant_relationship fuel block hb (RLMD.common node_state) = Ok true ∧
        is_validator (sender v) vb = true.
Proof.
  unfold RLMD.counts_for_block. rewrite !andM_true, !Ok_true_iff, bind_Ok. split.
  - intros (_ & (hb & Hhb & Hanc) & Hval). eauto.
  - intros (hb & Hhb & Hanc & Hval). split; [|eauto].
    apply has_block_hash_true. exists hb. by apply get_block_from_hash_Ok.
Qed.

(** X22. With non-negative stakes the GHOST weight does not grow down the
    chain: a block found to be an ancestor of another weighs, over the same
    votes, at least as much as its descendant. *)
Theorem rlmd_GHOST_weight_ancestor (f m : nat) (a d : Block)
    (votes : gset SignedVoteMessage) (node_state : RLMD.NodeState)
    (vb : ValidatorBalances) (wd wa : Z) :
  (∀ n w, vb !! n = Some w → 0 ≤ w) →
  is_ancestor_descendant_relationship m a d (RLMD.common node_state) = Ok true →
  RLMD.get_GHOST_weight f d votes node_state vb = Ok wd →
  RLMD.get_GHOST_weight (m + f) a votes node_state vb = Ok wa →
  wd ≤ wa.
Proof.
  intros Hnn Had. unfold RLMD.get_GHOST_weight.
  intros (vd & Hvd & [= <-])%bind_Ok (va & Hva & [= <-])%bind_Ok.
  destruct (pset_filter_r_Ok _ _ _ Hvd) as [_ Hmd].
  destruct (pset_filter_r_Ok _ _ _ Hva) as [Halla Hma].
  apply pset_sum_map_mono.
  - intros v [Hv Hcount]%Hmd. apply Hma. split; [done|].
    destruct (Halla v Hv) as [r Hr]. rewrite Hr. f_equal.
    apply counts_for_block_true in Hcount as (hb & Hhb & Hanc & Hval).
    pose proof (ancestor_walks_compose m f a d hb _ Had Hanc) as Hcomp.
    unfold RLMD.counts_for_block in Hr.
    replace (has_block_hash (head_hash (message v)) (RLMD.common node_state)) with true in Hr
      by (symmetry; apply has_block_hash_true; exists hb; by apply get_block_from_hash_Ok).
    rewrite andM_true_l, Hhb, bind_ret, Hcomp, andM_true_l, Hval in Hr.
    by injection Hr.
  - intros v [_ Hcount]%Hma.
    apply counts_for_block_true in Hcount as (_ & _ & _ & Hval).
    unfold is_validator in Hval. apply bool_decide_eq_true in Hval as [w Hw].
    rewrite (lookup_total_correct _ _ _ Hw). by eapply Hnn.
Qed.

Lemma rlmd_GHOST_weight_ancestor_witness : 1 ≤ 3.
Proof.
  apply (rlmd_GHOST_weight_ancestor 8 2 G0 A1 head_votes lonely_child_state
           three_balances 1 3).
  - intros n w. unfold three_balances.
    intros [[_ <-]|[_ [[_ <-]|[_ [_ <-]%lookup_singleton_Some]]%lookup_insert_Some]]
      %lookup_insert_Some; lia.
  - vm_compute. reflexivity.
  - vm_compute. reflexivity.
  - vm_compute. reflexivity.
Defined.
